(** * Shallow embedding of the legal RAG backend
    (src/backend/ingestion.py and src/backend/main.py).

    Texts are [String.string]s whose characters are read as Latin-1 code
    points; Python's [str.strip()] and the regex class [\s] are the same
    whitespace predicate, restricted here to those code points.  Page
    coordinates (PyMuPDF floats) are modelled as exact integers. *)

From Stdlib Require Import String Ascii List ZArith Lia Bool Arith Sorted Permutation.
Import ListNotations.

Local Open Scope list_scope.

Notation "a +++ b" := (String.append a b) (at level 60, right associativity).

(** ** Python string helpers *)
Module PyStr.

(** Characters for which [str.isspace()] holds (and which [\s] matches),
    among the Latin-1 code points. *)
Definition is_space (c : ascii) : bool :=
  let n := nat_of_ascii c in
  ((9 <=? n) && (n <=? 13)) || ((28 <=? n) && (n <=? 32)) ||
  (n =? 133) || (n =? 160).

Definition is_empty (s : string) : bool :=
  match s with EmptyString => true | _ => false end.

Fixpoint lstrip (s : string) : string :=
  match s with
  | EmptyString => EmptyString
  | String c s' => if is_space c then lstrip s' else s
  end.

Fixpoint rstrip (s : string) : string :=
  match s with
  | EmptyString => EmptyString
  | String c s' =>
      let r := rstrip s' in
      if is_empty r && is_space c then EmptyString else String c r
  end.

(** [s.strip()] *)
Definition strip (s : string) : string := rstrip (lstrip s).

(** [re.sub(r'\s+', ' ', s)]: every maximal run of whitespace becomes one
    space; [in_run] says whether the previous character was whitespace. *)
Fixpoint collapse_aux (in_run : bool) (s : string) : string :=
  match s with
  | EmptyString => EmptyString
  | String c s' =>
      if is_space c then
        (if in_run then collapse_aux true s'
         else String " " (collapse_aux true s'))
      else String c (collapse_aux false s')
  end.

Definition collapse (s : string) : string := collapse_aux false s.

(** [re.sub(r'\s+', ' ', s).strip()] *)
Definition normalize (s : string) : string := strip (collapse s).

Fixpoint has_nonspace (s : string) : bool :=
  match s with
  | EmptyString => false
  | String c s' => negb (is_space c) || has_nonspace s'
  end.

(** Decimal rendering of an integer, as [str(n)]. *)
Fixpoint digits_aux (fuel : nat) (n : N) (acc : string) : string :=
  match fuel with
  | O => acc
  | S f =>
      let d := String (ascii_of_N (48 + N.modulo n 10)) acc in
      if (n <? 10)%N then d else digits_aux f (N.div n 10) d
  end.

Definition str_of_N (n : N) : string := digits_aux (N.to_nat n + 1) n "".

Definition str_of_Z (z : Z) : string :=
  match z with
  | Zneg p => "-" +++ str_of_N (Npos p)
  | _ => str_of_N (Z.to_N z)
  end.

End PyStr.

(** ** The Segmenter: [parse_pdf_chunks] (ingestion.py, lines 81-137) *)
Module Segmenter.
Import PyStr.

(** A PyMuPDF text block [(x0, y0, x1, y1, text, ...)]. *)
Record block := mk_block {
  x0 : Z; y0 : Z; x1 : Z; y1 : Z; btext : string
}.

(** A yielded chunk [{"page_number", "paragraph_number", "text"}]. *)
Record chunk := mk_chunk {
  page_number : nat; paragraph_number : nat; ctext : string
}.

(** Default of [PARAGRAPH_THRESHOLD] (AppConfig). *)
Definition PARAGRAPH_THRESHOLD : Z := 12.

(** Sort key [(b[1], b[0])], compared lexicographically. *)
Definition key_lt (a b : block) : bool :=
  (y0 a <? y0 b)%Z || ((y0 a =? y0 b)%Z && (x0 a <? x0 b)%Z).

(** [blocks.sort(key=...)]: a stable insertion sort (a block goes after
    every block whose key is not greater than its own). *)
Fixpoint insert_block (b : block) (l : list block) : list block :=
  match l with
  | [] => [b]
  | c :: l' => if key_lt b c then b :: l else c :: insert_block b l'
  end.

Definition sort_blocks (l : list block) : list block :=
  fold_left (fun acc b => insert_block b acc) l [].

(** Loop variables [current_paragraph_text], [current_paragraph_num],
    [last_block_y1], and the chunks yielded so far. *)
Record seg_state := mk_seg {
  cur_text : string; cur_num : nat; last_y1 : Z; emitted : list chunk
}.

Definition seg_init : seg_state := mk_seg "" 1 0 [].

(** One iteration of [for i, block in enumerate(blocks)]. *)
Definition seg_step (thr : Z) (page : nat) (i : nat) (st : seg_state)
    (b : block) : seg_state :=
  let block_text := strip (btext b) in
  if is_empty block_text then st
  else
    let is_new_paragraph :=
      if Nat.eqb i 0 then true
      else (thr <? y0 b - last_y1 st)%Z in
    if is_new_paragraph && negb (is_empty (cur_text st)) then
      let clean_text := normalize (cur_text st) in
      let em := if negb (is_empty clean_text)
                then emitted st ++ [mk_chunk page (cur_num st) clean_text]
                else emitted st in
      mk_seg block_text (S (cur_num st)) (y1 b) em
    else
      let t := if negb (is_empty (cur_text st))
               then cur_text st +++ " " +++ block_text
               else block_text in
      mk_seg t (cur_num st) (y1 b) (emitted st).

Fixpoint seg_loop (thr : Z) (page : nat) (i : nat) (st : seg_state)
    (bs : list block) : seg_state :=
  match bs with
  | [] => st
  | b :: bs' => seg_loop thr page (S i) (seg_step thr page i st b) bs'
  end.

(** The flush after the block loop. *)
Definition seg_flush (page : nat) (st : seg_state) : list chunk :=
  if negb (is_empty (cur_text st)) then
    let clean_text := normalize (cur_text st) in
    if negb (is_empty clean_text)
    then emitted st ++ [mk_chunk page (cur_num st) clean_text]
    else emitted st
  else emitted st.

(** The chunks yielded for one page (page numbers are 1-based). *)
Definition segment_page (thr : Z) (page : nat) (blocks : list block)
    : list chunk :=
  seg_flush page (seg_loop thr page 0 seg_init (sort_blocks blocks)).

Fixpoint segment_pages (thr : Z) (page : nat) (pages : list (list block))
    : list chunk :=
  match pages with
  | [] => []
  | bs :: rest => segment_page thr page bs ++ segment_pages thr (S page) rest
  end.

(** [parse_pdf_chunks] over the blocks of every page of the document. *)
Definition parse_pdf_chunks (thr : Z) (pages : list (list block))
    : list chunk :=
  segment_pages thr 1 pages.

Definition nonempty_block (b : block) : bool :=
  negb (is_empty (strip (btext b))).

Definition count_nonempty (bs : list block) : nat :=
  length (filter nonempty_block bs).

End Segmenter.

(** ** Exceptions and a state/exception monad *)
Module Py.

(** The exceptions the code raises or catches: FastAPI's [HTTPException],
    and every other [Exception] with its message. *)
Inductive py_exn :=
| HTTPException (status_code : Z) (detail : string)
| Exception (msg : string).

(** Code that threads a state [S] and may raise. *)
Definition M (S A : Type) : Type := S -> S * (A + py_exn).

Definition ret {S A} (a : A) : M S A := fun s => (s, inl a).

Definition bind {S A B} (m : M S A) (k : A -> M S B) : M S B :=
  fun s => match m s with
           | (s', inl a) => k a s'
           | (s', inr e) => (s', inr e)
           end.

Definition raise {S A} (e : py_exn) : M S A := fun s => (s, inr e).

(** A call to an external capability that returns a value or raises. *)
Definition lift {S A} (r : A + py_exn) : M S A := fun s => (s, r).

Definition get {S} : M S S := fun s => (s, inl s).

Definition modify {S} (f : S -> S) : M S unit := fun s => (f s, inl tt).

(** [try: m except Exception as e: h e] *)
Definition try_except {S A} (m : M S A) (h : py_exn -> M S A) : M S A :=
  fun s => match m s with
           | (s', inr e) => h e s'
           | r => r
           end.

(** A [for] loop whose body may raise. *)
Fixpoint for_each {S A} (body : A -> M S unit) (l : list A) : M S unit :=
  match l with
  | [] => ret tt
  | x :: l' => bind (body x) (fun _ => for_each body l')
  end.

Notation "'let*' x ':=' m 'in' k" := (bind m (fun x => k))
  (at level 200, x pattern, m at level 100, k at level 200).

End Py.

(** ** The ingestion pipeline: [main] (ingestion.py, lines 144-243) *)
Module Ingestion.
Import PyStr Py Segmenter.

(** A row of [csv.DictReader]: column name to value ([None] for a
    missing trailing field). *)
Definition csv_row := list (string * option string).

(** [file_info.get(key)] *)
Fixpoint dict_get (key : string) (row : csv_row) : option string :=
  match row with
  | [] => None
  | (k, v) :: row' => if String.eqb k key then v else dict_get key row'
  end.

(** Python truthiness of a [str] or [None]. *)
Definition truthy (o : option string) : bool :=
  match o with Some s => negb (is_empty s) | None => false end.

(** [os.path.join(a, b)] on POSIX paths. *)
Definition path_join (a b : string) : string :=
  match b with
  | String "/" _ => b
  | _ =>
      if is_empty a then b
      else if String.eqb (substring (String.length a - 1) 1 a) "/" then a +++ b
      else a +++ "/" +++ b
  end.

(** The point payload written by the pipeline. *)
Record payload := mk_payload {
  p_filename : string; p_source_id : string; p_page_number : nat;
  p_paragraph_number : nat; p_text_chunk : string
}.

(** [models.PointStruct(id=str(uuid.uuid4()), vector=..., payload=...)];
    uuid4 is modelled as a counter that is never reused. *)
Record point := mk_point { pt_id : nat; pt_vector : list Z; pt_payload : payload }.

Inductive log_level := INFO | WARNING | ERROR.

Inductive log_event :=
| LConnectFailed (e : py_exn)
| LCollectionExists
| LCollectionCreated
| LCsvFailed (e : py_exn)
| LFound (n : nat)
| LSkipMissing (row : csv_row)
| LFileNotFound (path : string)
| LProcessing (filename : string)
| LUploaded (n : nat) (filename : string)
| LNoChunks (filename : string)
| LFailed (filename : string) (e : py_exn)
| LComplete.

Record ing_state := mk_ing {
  log : list (log_level * log_event);
  store : list point;
  next_uuid : nat
}.

Definition add_log (lv : log_level) (ev : log_event) (st : ing_state) : ing_state :=
  mk_ing (log st ++ [(lv, ev)]) (store st) (next_uuid st).

Definition logm (lv : log_level) (ev : log_event) : M ing_state unit :=
  modify (add_log lv ev).

Definition uuid4 : M ing_state nat :=
  fun st => (mk_ing (log st) (store st) (S (next_uuid st)), inl (next_uuid st)).

Section Pipeline.

(** Configuration and the external capabilities. *)
Variable thr : Z.
Variable PDF_DIRECTORY : string.
(** [QdrantClient(...)] and [ollama_client.list()] *)
Variable connect : unit + py_exn.
(** [client.get_collection] and [client.create_collection] *)
Variable get_collection : unit + py_exn.
Variable create_collection : unit + py_exn.
(** Reading the manifest with [csv.DictReader]. *)
Variable read_csv : list csv_row + py_exn.
(** [os.path.exists] *)
Variable path_exists : string -> bool.
(** [fitz.open(path)] (page count) and [page.get_text("blocks")]. *)
Variable fitz_open : string -> nat + py_exn.
Variable page_blocks : string -> nat -> list block + py_exn.
(** [ollama_client.embeddings(...)["embedding"]] *)
Variable embeddings : string -> list Z + py_exn.
(** [qdrant_client.upsert(..., wait=True)]: the new store, or an error
    that leaves the store as it was. *)
Variable upsert : list point -> list point -> list point + py_exn.

Definition create_qdrant_collection : M ing_state unit :=
  match get_collection with
  | inl _ => logm INFO LCollectionExists
  | inr _ =>
      let* _ := lift create_collection in
      logm INFO LCollectionCreated
  end.

(** The body of [for chunk in parse_pdf_chunks(pdf_path)] for the chunks
    of one page. *)
Fixpoint embed_chunks (filename source_id : string) (cs : list chunk)
    (acc : list point) : M ing_state (list point) :=
  match cs with
  | [] => ret acc
  | c :: cs' =>
      let* vector := lift (embeddings (ctext c)) in
      let* id := uuid4 in
      let pl := mk_payload filename source_id (page_number c)
                  (paragraph_number c) (ctext c) in
      embed_chunks filename source_id cs' (acc ++ [mk_point id vector pl])
  end.

(** The generator [parse_pdf_chunks] consumed page by page: page [n] is
    loaded ([doc.load_page(n)]) and segmented as page [n + 1]. *)
Fixpoint pages_loop (filename source_id pdf_path : string) (pages : list nat)
    (acc : list point) : M ing_state (list point) :=
  match pages with
  | [] => ret acc
  | n :: rest =>
      let* blocks := lift (page_blocks pdf_path n) in
      let* acc' := embed_chunks filename source_id
                     (segment_page thr (S n) blocks) acc in
      pages_loop filename source_id pdf_path rest acc'
  end.

Definition upsert_points (points : list point) : M ing_state unit :=
  fun st => match upsert (store st) points with
            | inl s' => (mk_ing (log st) s' (next_uuid st), inl tt)
            | inr e => (st, inr e)
            end.

(** The [try] block of the loop body. *)
Definition doc_body (filename source_id pdf_path : string) : M ing_state unit :=
  if negb (path_exists pdf_path) then logm WARNING (LFileNotFound pdf_path)
  else
    let* _ := logm INFO (LProcessing filename) in
    let* npages := lift (fitz_open pdf_path) in
    let* points_to_upload := pages_loop filename source_id pdf_path (seq 0 npages) [] in
    match points_to_upload with
    | _ :: _ =>
        let* _ := upsert_points points_to_upload in
        logm INFO (LUploaded (length points_to_upload) filename)
    | [] => logm WARNING (LNoChunks filename)
    end.

(** One iteration of [for file_info in all_files]. *)
Definition process_row (file_info : csv_row) : M ing_state unit :=
  let filename := dict_get "filename" file_info in
  let source_id := dict_get "source_id" file_info in
  match filename, source_id with
  | Some fn, Some sid =>
      if truthy filename && truthy source_id then
        let pdf_path := path_join PDF_DIRECTORY fn in
        try_except (doc_body fn sid pdf_path)
                   (fun e => logm ERROR (LFailed fn e))
      else logm WARNING (LSkipMissing file_info)
  | _, _ => logm WARNING (LSkipMissing file_info)
  end.

Definition ingest_main : M ing_state unit :=
  match connect with
  | inr e => logm ERROR (LConnectFailed e)
  | inl _ =>
      let* _ := create_qdrant_collection in
      match read_csv with
      | inr e => logm ERROR (LCsvFailed e)
      | inl all_files =>
          let* _ := logm INFO (LFound (length all_files)) in
          let* _ := for_each process_row all_files in
          logm INFO LComplete
      end
  end.

End Pipeline.
End Ingestion.

(** ** The query orchestrator: [analyze_document] (main.py, lines 137-243) *)
Module Query.
Import PyStr Py.
Local Open Scope string_scope.
Local Open Scope list_scope.

Definition nl : string := String (ascii_of_nat 10) EmptyString.

(** Lines of a triple-quoted string, each ended by a newline. *)
Fixpoint text_lines (ls : list string) : string :=
  match ls with
  | [] => ""
  | l :: ls' => l +++ nl +++ text_lines ls'
  end.

Definition MAX_FILE_MB : Z := 5.
Definition MAX_FILE_BYTES : Z := MAX_FILE_MB * 1024 * 1024.
Definition TOP_K_RESULTS : nat := 5.

Definition ALLOWED_MIME_TYPES : list string :=
  [ "application/pdf"; "application/msword";
    "application/vnd.openxmlformats-officedocument.wordprocessingml.document";
    "image/png"; "image/jpeg"; "image/jpg" ].

(** [sorted(ALLOWED_MIME_TYPES)] *)
Definition ALLOWED_MIME_TYPES_SORTED : list string :=
  [ "application/msword"; "application/pdf";
    "application/vnd.openxmlformats-officedocument.wordprocessingml.document";
    "image/jpeg"; "image/jpg"; "image/png" ].

Definition SYSTEM_PROMPT : string := text_lines
  [ "You are a highly specialized legal analyst. Your user is a local citizen.";
    "You will be given THREE pieces of information:";
    "1. A USER'S QUESTION.";
    "2. The full text of a USER'S DOCUMENT (if provided).";
    "3. Several relevant LEGAL CHUNKS from a permanent knowledge base of official laws and regulations.";
    "";
    "Your task is to synthesize all this information to answer the user's question.";
    "- First, analyze the USER'S DOCUMENT (if it exists).";
    "- Then, use the LEGAL CHUNKS to provide the official legal context and definitions.";
    "- Finally, answer the USER'S QUESTION by connecting the user's document to the law.";
    "- You MUST cite the legal chunks you use, like [Source: filename, Page: X, Para: Y].";
    "- If the legal chunks are not relevant or don't add value, state that you can only analyze the user's document (or only the question if no document was provided).";
    "- Your tone should be formal, professional, and helpful." ].

Definition NO_CHUNKS_NOTICE : string :=
  "No relevant legal chunks were found in the knowledge base for this context.".

Fixpoint join (sep : string) (l : list string) : string :=
  match l with
  | [] => ""
  | [x] => x
  | x :: l' => x +++ sep +++ join sep l'
  end.

(** An [UploadFile]: declared media type, file name and contents. *)
Record upload := mk_upload {
  content_type : option string; up_filename : option string; contents : string
}.

(** A LlamaParse document; [get_text()] returns [doc_text]. *)
Record document := mk_document { doc_text : string }.

(** Payload values of a search hit. *)
Inductive pyval := VStr (s : string) | VInt (z : Z) | VNone.

(** A Qdrant [ScoredPoint]; the score is not read by the orchestrator. *)
Record scored_point := mk_scored {
  score : Z; spayload : option (list (string * pyval))
}.

Record rag_response := mk_response {
  answer : string; retrieved_sources_count : nat
}.

(** The external calls a request makes, in order. *)
Inductive call :=
| CParse (suffix : string) (file_bytes : string)
| CEmbed (text : string)
| CSearch (query_vector : list Z) (limit : nat)
| CComplete (prompt : string).

Definition trace := list call.

(** [str(e)] *)
Definition exn_str (e : py_exn) : string :=
  match e with
  | HTTPException c d => str_of_Z c +++ ": " +++ d
  | Exception m => m
  end.

(** [str(v)] inside an f-string. *)
Definition py_str (v : pyval) : string :=
  match v with VStr s => s | VInt z => str_of_Z z | VNone => "None" end.

(** [d.get(key, default)] *)
Fixpoint py_get (d : list (string * pyval)) (key : string) (default : pyval) : pyval :=
  match d with
  | [] => default
  | (k, v) :: d' => if String.eqb k key then v else py_get d' key default
  end.

(** [result.payload or {}] *)
Definition payload_dict (r : scored_point) : list (string * pyval) :=
  match spayload r with Some d => d | None => [] end.

Fixpoint rfind_aux (c : ascii) (i : nat) (s : string) (best : option nat) : option nat :=
  match s with
  | EmptyString => best
  | String c' s' => rfind_aux c (S i) s' (if Ascii.eqb c c' then Some i else best)
  end.

(** [str.rfind(c)] ([None] for -1). *)
Definition rfind (c : ascii) (s : string) : option nat := rfind_aux c 0 s None.

(** The extension returned by [os.path.splitext(p)] (POSIX). *)
Definition splitext_ext (p : string) : string :=
  let start := match rfind "/" p with Some k => S k | None => 0 end in
  match rfind "." p with
  | Some d =>
      if Nat.leb start d &&
         existsb (fun k => negb (Ascii.eqb (match String.get k p with Some a => a | None => "."%char end) "."))
                 (seq start (d - start))
      then substring d (String.length p - d) p
      else ""
  | None => ""
  end.

(** [suffix = ext if ext else ""] with [_, ext = os.path.splitext(file.filename or "")] *)
Definition upload_suffix (f : upload) : string :=
  splitext_ext (match up_filename f with Some n => n | None => "" end).

Definition record_call {A} (c : call) (r : A + py_exn) : M trace A :=
  fun tr => (tr ++ [c], r).

Definition validate_file (file : upload) : M trace unit :=
  match content_type file with
  | Some ct =>
      if existsb (String.eqb ct) ALLOWED_MIME_TYPES then ret tt
      else raise (HTTPException 415 ("Unsupported file type '" +++ ct +++ "'. Allowed: "
                                     +++ join ", " ALLOWED_MIME_TYPES_SORTED))
  | None =>
      raise (HTTPException 415 ("Unsupported file type 'None'. Allowed: "
                                +++ join ", " ALLOWED_MIME_TYPES_SORTED))
  end.

Definition combined_query_text (user_doc_text user_query : string) : string :=
  if negb (is_empty user_doc_text)
  then "USER'S DOCUMENT:" +++ nl +++ user_doc_text +++ nl +++ nl +++
       "USER'S QUESTION:" +++ nl +++ user_query
  else "USER'S QUESTION ONLY:" +++ nl +++ user_query.

(** The loop [for i, result in enumerate(search_results)]. *)
Fixpoint render_results (i : nat) (rs : list scored_point) (legal_chunks_text : string)
    : M trace string :=
  match rs with
  | [] => ret legal_chunks_text
  | result :: rs' =>
      let pl := payload_dict result in
      let cite := "[Source: " +++ py_str (py_get pl "filename" (VStr "N/A")) +++
                  ", Page: " +++ py_str (py_get pl "page_number" (VStr "N/A")) +++
                  ", Para: " +++ py_str (py_get pl "paragraph_number" (VStr "N/A")) +++ "]" in
      let acc := legal_chunks_text +++ nl +++ "--- Legal Chunk " +++
                 str_of_N (N.of_nat (i + 1)) +++ " " +++ cite +++ " ---" +++ nl in
      match py_get pl "text_chunk" (VStr "No text available.") with
      | VStr t => render_results (S i) rs' (acc +++ t +++ nl)
      | _ => raise (Exception "TypeError: unsupported operand type(s) for +")
      end
  end.

Definition final_prompt (user_query user_doc_text legal_chunks_text : string) : string :=
  SYSTEM_PROMPT +++ nl +++ nl +++
  "--- USER'S QUESTION ---" +++ nl +++ user_query +++ nl +++ nl +++
  "--- USER'S DOCUMENT TEXT ---" +++ nl +++
  (if negb (is_empty user_doc_text) then user_doc_text else "[No user document provided]") +++
  nl +++ nl +++
  "--- RELEVANT LEGAL CHUNKS FROM KNOWLEDGE BASE ---" +++ nl +++ legal_chunks_text +++
  nl +++ nl +++ "--- FINAL ANALYSIS ---" +++ nl.

Section Orchestrator.

(** [parser.aload_data] on a temporary file with the given suffix. *)
Variable aload_data : string -> string -> list document + py_exn.
(** [Settings.embed_model.aget_query_embedding] *)
Variable aget_query_embedding : string -> list Z + py_exn.
(** [qdrant_client.search] with [limit] and [score_threshold=SCORE_THRESHOLD]. *)
Variable qdrant_search : list Z -> nat -> list scored_point + py_exn.
(** [Settings.llm.acomplete(...).text] *)
Variable acomplete : string -> string + py_exn.

(** The document text of the optional upload (lines 153-183). *)
Definition read_upload (file : option upload) : M trace string :=
  match file with
  | None => ret ""
  | Some f =>
      let* _ := validate_file f in
      let file_bytes := contents f in
      if (MAX_FILE_BYTES <? Z.of_nat (String.length file_bytes))%Z then
        raise (HTTPException 413 ("File exceeds " +++ str_of_Z MAX_FILE_MB +++ "MB limit."))
      else
        let suffix := upload_suffix f in
        let* documents :=
          try_except (record_call (CParse suffix file_bytes) (aload_data suffix file_bytes))
                     (fun parse_err =>
                        raise (HTTPException 400 ("Failed to parse document: " +++ exn_str parse_err))) in
        match documents with
        | [] => raise (HTTPException 400 "Empty parse result for document.")
        | d :: _ => ret (doc_text d)
        end
  end.

Definition analyze_body (user_query : string) (file : option upload) : M trace rag_response :=
  let* user_doc_text := read_upload file in
  let combined := combined_query_text user_doc_text user_query in
  let* query_vector := record_call (CEmbed combined) (aget_query_embedding combined) in
  let* search_results := record_call (CSearch query_vector TOP_K_RESULTS)
                                     (qdrant_search query_vector TOP_K_RESULTS) in
  let retrieved := length search_results in
  let* legal_chunks_text :=
    match search_results with
    | _ :: _ => render_results 0 search_results ""
    | [] => ret NO_CHUNKS_NOTICE
    end in
  let prompt := final_prompt user_query user_doc_text legal_chunks_text in
  let* final_answer := record_call (CComplete prompt) (acomplete prompt) in
  ret (mk_response final_answer retrieved).

(** [except HTTPException: raise] / [except Exception as e: 500]. *)
Definition analyze_document (user_query : string) (file : option upload) : M trace rag_response :=
  try_except (analyze_body user_query file)
    (fun e => match e with
              | HTTPException _ _ => raise e
              | Exception _ => raise (HTTPException 500 ("Internal error: " +++ exn_str e))
              end).

End Orchestrator.
End Query.

(** ** The grounding block as the spec describes it *)
Module QuerySpec.
Import PyStr Query.
Local Open Scope string_scope.

(** Spec reading (section 4.3, step 5): one "Legal Chunk" header per result,
    numbered from 1 in the order returned, naming filename, page and
    paragraph, followed by the result's text; the notice when there are no
    results. *)
Definition citation_field (key : string) (r : scored_point) : string :=
  py_str (py_get (payload_dict r) key (VStr "N/A")).

Definition legal_chunk_header (n : nat) (r : scored_point) : string :=
  nl +++ "--- Legal Chunk " +++ str_of_N (N.of_nat n) +++
  " [Source: " +++ citation_field "filename" r +++
  ", Page: " +++ citation_field "page_number" r +++
  ", Para: " +++ citation_field "paragraph_number" r +++ "] ---" +++ nl.

Definition result_text (r : scored_point) : string :=
  py_str (py_get (payload_dict r) "text_chunk" (VStr "No text available.")).

Fixpoint grounding_entries (n : nat) (rs : list scored_point) : string :=
  match rs with
  | [] => ""
  | r :: rs' => legal_chunk_header n r +++ result_text r +++ nl +++ grounding_entries (S n) rs'
  end.

Definition grounding_block (rs : list scored_point) : string :=
  match rs with
  | [] => NO_CHUNKS_NOTICE
  | _ => grounding_entries 1 rs
  end.

(** The question-only and the labeled document-and-question forms. *)
Definition question_only_form (q : string) : string :=
  "USER'S QUESTION ONLY:" +++ nl +++ q.

Definition document_question_form (d q : string) : string :=
  ("USER'S DOCUMENT:" +++ nl +++ d) +++ (nl +++ nl) +++ ("USER'S QUESTION:" +++ nl +++ q).

(** The allow-list check as the spec states it. *)
Definition media_type_allowed (ct : option string) : Prop :=
  exists c, ct = Some c /\ In c ALLOWED_MIME_TYPES.

End QuerySpec.

(** ** Measures on texts and blocks used by further properties *)
Module TextMeasures.
Import PyStr Segmenter.

(** The text with every whitespace character removed. *)
Fixpoint keep_nonspace (s : string) : string :=
  match s with
  | EmptyString => EmptyString
  | String c s' => if is_space c then keep_nonspace s' else String c (keep_nonspace s')
  end.

(** Whitespace occurs only as single [' '] characters; [prev] says whether
    the character before was whitespace. *)
Fixpoint single_spaced (prev : bool) (s : string) : bool :=
  match s with
  | EmptyString => true
  | String c s' =>
      if is_space c then Ascii.eqb c " " && negb prev && single_spaced true s'
      else single_spaced false s'
  end.

Definition concat_str (l : list string) : string := fold_right String.append EmptyString l.

(** The order [blocks.sort] establishes: [(y0, x0)] not greater. *)
Definition key_le (a b : block) : bool := negb (key_lt b a).

(** The non-whitespace characters of the chunks, and of the blocks, in order. *)
Definition chunk_chars (cs : list chunk) : string :=
  concat_str (map (fun c => keep_nonspace (ctext c)) cs).

Definition block_chars (bs : list block) : string :=
  concat_str (map (fun b => keep_nonspace (btext b)) bs).


(** A text that is empty or starts with a non-whitespace character. *)
Definition starts_nonspace (s : string) : Prop :=
  match s with EmptyString => True | String c _ => is_space c = false end.

(** A chunk text is non-empty and normalized. *)
Definition chunk_ok (c : chunk) : Prop :=
  is_empty (ctext c) = false /\ normalize (ctext c) = ctext c.

End TextMeasures.

(** ** The points built for the chunks of a document *)
Module PointMeasures.
Import Segmenter Ingestion.

(** [pts] are the points built, in order, for the chunks [cs]: payload
    and vector of each; [emb] gives the vectors. *)
Definition points_for (emb : string -> list Z) (fn sid : string) (cs : list chunk) (pts : list point) : Prop :=
  map pt_payload pts =
    map (fun c => mk_payload fn sid (page_number c) (paragraph_number c) (ctext c)) cs /\
  map pt_vector pts = map (fun c => emb (ctext c)) cs.

End PointMeasures.

(** ** Status codes of the client errors of the endpoint *)
Module QueryMeasures.

(** 400 (bad upload), 413 (too large), 415 (media type). *)
Definition client_code (c : Z) : Prop := c = 400%Z \/ c = 413%Z \/ c = 415%Z.

End QueryMeasures.

(** ** Whitespace lemmas *)
Module PyStrFacts.
Import PyStr.

Lemma is_space_space : is_space " "%char = true.
Proof. reflexivity. Qed.

Lemma is_empty_has_nonspace (s : string) :
  has_nonspace s = true -> is_empty s = false.
Proof. destruct s; simpl; congruence. Qed.

Lemma has_nonspace_lstrip (s : string) :
  has_nonspace (lstrip s) = has_nonspace s.
Proof.
  induction s as [|c s IH]; simpl; [reflexivity|].
  destruct (is_space c) eqn:Hc; simpl; [exact IH|].
  rewrite Hc; reflexivity.
Qed.

Lemma has_nonspace_rstrip (s : string) :
  has_nonspace (rstrip s) = has_nonspace s.
Proof.
  induction s as [|c s IH]; simpl; [reflexivity|].
  destruct (is_empty (rstrip s)) eqn:He, (is_space c) eqn:Hc; simpl;
    rewrite ?Hc, ?IH; try reflexivity.
  destruct (rstrip s); [|discriminate]. rewrite <- IH. reflexivity.
Qed.

Lemma has_nonspace_strip (s : string) :
  has_nonspace (strip s) = has_nonspace s.
Proof. unfold strip. rewrite has_nonspace_rstrip, has_nonspace_lstrip. reflexivity. Qed.

Lemma is_empty_rstrip (s : string) :
  is_empty (rstrip s) = negb (has_nonspace s).
Proof.
  induction s as [|c s IH]; simpl; [reflexivity|].
  destruct (is_empty (rstrip s)) eqn:He, (is_space c) eqn:Hc; simpl;
    rewrite <- ?IH; reflexivity.
Qed.

Lemma is_empty_strip (s : string) :
  is_empty (strip s) = negb (has_nonspace s).
Proof. unfold strip. rewrite is_empty_rstrip, has_nonspace_lstrip. reflexivity. Qed.

Lemma has_nonspace_collapse_aux (b : bool) (s : string) :
  has_nonspace (collapse_aux b s) = has_nonspace s.
Proof.
  revert b; induction s as [|c s IH]; intros b; simpl; [reflexivity|].
  destruct (is_space c) eqn:Hc.
  - destruct b; simpl; rewrite IH; reflexivity.
  - simpl; rewrite Hc, IH; reflexivity.
Qed.

Lemma has_nonspace_append (a b : string) :
  has_nonspace (a +++ b) = has_nonspace a || has_nonspace b.
Proof.
  induction a as [|c a IH]; simpl; [reflexivity|].
  rewrite IH, orb_assoc; reflexivity.
Qed.

(** A text holding a non-whitespace character normalizes to a non-empty
    text. *)
Lemma normalize_nonempty (s : string) :
  has_nonspace s = true -> is_empty (normalize s) = false.
Proof.
  intros H. unfold normalize, collapse.
  rewrite is_empty_strip, has_nonspace_collapse_aux, H. reflexivity.
Qed.

End PyStrFacts.

(** ** Segmenter invariants *)
Module SegmenterFacts.
Import PyStr PyStrFacts Segmenter.

(** After [k] non-empty blocks of page [p]: nothing accumulated while
    [k = 0]; afterwards the accumulator holds a non-blank text and the
    chunks yielded so far are numbered [1 .. cur_num - 1]. *)
Definition seg_inv (p k : nat) (st : seg_state) : Prop :=
  (k = 0 /\ cur_text st = ""%string /\ emitted st = [] /\ cur_num st = 1) \/
  (0 < k /\ has_nonspace (cur_text st) = true /\
   map paragraph_number (emitted st) = seq 1 (cur_num st - 1) /\
   1 <= cur_num st <= k /\
   Forall (fun c => page_number c = p) (emitted st)).

Lemma seq_snoc (n : nat) : 1 <= n -> seq 1 (n - 1) ++ [n] = seq 1 n.
Proof.
  intros H. destruct n as [|n]; [lia|].
  rewrite seq_S. simpl. rewrite Nat.sub_0_r. reflexivity.
Qed.

Lemma seg_inv_init (p : nat) : seg_inv p 0 seg_init.
Proof. left; repeat split. Qed.

Lemma nonempty_has_nonspace (b : block) :
  nonempty_block b = true -> has_nonspace (strip (btext b)) = true.
Proof.
  unfold nonempty_block. rewrite is_empty_strip, has_nonspace_strip.
  destruct (has_nonspace (btext b)); auto.
Qed.

Lemma seg_step_empty thr p i st b :
  nonempty_block b = false -> seg_step thr p i st b = st.
Proof.
  unfold nonempty_block, seg_step. destruct (is_empty (strip (btext b))); simpl; congruence.
Qed.

Lemma seg_step_last_y1 thr p i st b :
  nonempty_block b = true -> last_y1 (seg_step thr p i st b) = y1 b.
Proof.
  unfold nonempty_block, seg_step. destruct (is_empty (strip (btext b))); [discriminate|].
  intros _. simpl. destruct (_ && _); reflexivity.
Qed.

Lemma seg_step_inv thr p i k st b :
  seg_inv p k st ->
  seg_inv p (k + if nonempty_block b then 1 else 0) (seg_step thr p i st b).
Proof.
  intros Hinv. destruct (nonempty_block b) eqn:Hb.
  2:{ rewrite seg_step_empty by exact Hb. rewrite Nat.add_0_r. exact Hinv. }
  pose proof (nonempty_has_nonspace b Hb) as Hbt.
  unfold nonempty_block in Hb. apply negb_true_iff in Hb.
  unfold seg_step. rewrite Hb. right.
  destruct Hinv as [(Hk & Ht & He & Hn) | (Hk & Ht & He & Hn & Hp)].
  - rewrite Ht, andb_false_r. simpl. subst.
    rewrite He, Hn. repeat split; simpl; auto.
  - pose proof (is_empty_has_nonspace _ Ht) as Hte. rewrite Hte. simpl.
    destruct (if Nat.eqb i 0 then true else (thr <? y0 b - last_y1 st)%Z); simpl.
    + rewrite (normalize_nonempty _ Ht). simpl.
      repeat split; auto; try lia.
      * rewrite map_app, He. simpl. rewrite Nat.sub_0_r. apply seq_snoc. lia.
      * apply Forall_app; split; [exact Hp|]. constructor; auto.
    + simpl. repeat split; auto; try lia.
      rewrite has_nonspace_append. rewrite Ht. reflexivity.
Qed.

Lemma seg_loop_inv thr p bs : forall i k st,
  seg_inv p k st ->
  seg_inv p (k + count_nonempty bs) (seg_loop thr p i st bs).
Proof.
  unfold count_nonempty.
  induction bs as [|b bs IH]; intros i k st H; simpl.
  - rewrite Nat.add_0_r. exact H.
  - specialize (IH (S i) _ _ (seg_step_inv thr p i k st b H)).
    destruct (nonempty_block b); simpl in *;
      [rewrite <- Nat.add_assoc in IH; exact IH | rewrite Nat.add_0_r in IH; exact IH].
Qed.

Lemma seg_loop_app thr p l1 : forall l2 i st,
  seg_loop thr p i st (l1 ++ l2) =
  seg_loop thr p (i + length l1) (seg_loop thr p i st l1) l2.
Proof.
  induction l1 as [|b l1 IH]; intros l2 i st; simpl.
  - rewrite Nat.add_0_r. reflexivity.
  - rewrite IH. f_equal. lia.
Qed.

Lemma seg_loop_all_empty thr p mids : forall i st,
  Forall (fun b => nonempty_block b = false) mids ->
  seg_loop thr p i st mids = st.
Proof.
  induction mids as [|b mids IH]; intros i st H; simpl; [reflexivity|].
  inversion H; subst. rewrite seg_step_empty by assumption. apply IH; assumption.
Qed.

(** What the flush yields, from the invariant. *)
Lemma seg_flush_inv p k st :
  seg_inv p k st ->
  (k = 0 -> seg_flush p st = []) /\
  (0 < k -> map paragraph_number (seg_flush p st) = seq 1 (cur_num st) /\
            1 <= cur_num st <= k /\
            Forall (fun c => page_number c = p) (seg_flush p st)).
Proof.
  intros [(Hk & Ht & He & Hn) | (Hk & Ht & He & Hn & Hp)].
  - split; [|lia]. intros _. unfold seg_flush. rewrite Ht, He. reflexivity.
  - split; [lia|]. intros _. unfold seg_flush.
    rewrite (is_empty_has_nonspace _ Ht), (normalize_nonempty _ Ht). simpl.
    repeat split; try lia.
    + rewrite map_app, He. simpl. apply seq_snoc. lia.
    + apply Forall_app; split; [exact Hp|]. constructor; auto.
Qed.

Lemma count_insert_block b l :
  count_nonempty (insert_block b l) =
  (if nonempty_block b then 1 else 0) + count_nonempty l.
Proof.
  unfold count_nonempty. induction l as [|c l IH]; simpl.
  - destruct (nonempty_block b); reflexivity.
  - destruct (key_lt b c); simpl.
    + destruct (nonempty_block b), (nonempty_block c); reflexivity.
    + destruct (nonempty_block c); simpl; rewrite IH;
        destruct (nonempty_block b); reflexivity.
Qed.

Lemma count_sort_blocks bs : count_nonempty (sort_blocks bs) = count_nonempty bs.
Proof.
  unfold sort_blocks.
  assert (G : forall acc, count_nonempty (fold_left (fun acc b => insert_block b acc) bs acc)
                          = count_nonempty acc + count_nonempty bs).
  { induction bs as [|b bs IH]; intros acc; simpl.
    - unfold count_nonempty; simpl; lia.
    - rewrite IH, count_insert_block. unfold count_nonempty; simpl.
      destruct (nonempty_block b); simpl; lia. }
  rewrite G. reflexivity.
Qed.

Lemma segment_page_spec thr p bs :
  (count_nonempty bs = 0 -> segment_page thr p bs = []) /\
  (0 < count_nonempty bs ->
     map paragraph_number (segment_page thr p bs) =
       seq 1 (length (segment_page thr p bs)) /\
     1 <= length (segment_page thr p bs) <= count_nonempty bs /\
     Forall (fun c => page_number c = p) (segment_page thr p bs)).
Proof.
  unfold segment_page.
  pose proof (seg_loop_inv thr p (sort_blocks bs) 0 0 seg_init (seg_inv_init p)) as H.
  rewrite count_sort_blocks in H. simpl in H.
  destruct (seg_flush_inv _ _ _ H) as [H0 H1]. split; [exact H0|].
  intros Hpos. destruct (H1 Hpos) as (Hm & Hn & Hp).
  assert (Hl : length (seg_flush p (seg_loop thr p 0 seg_init (sort_blocks bs)))
               = cur_num (seg_loop thr p 0 seg_init (sort_blocks bs))).
  { rewrite <- length_map with (f := paragraph_number), Hm, length_seq. reflexivity. }
  rewrite Hl. repeat split; auto; lia.
Qed.

Lemma segment_page_pages thr p bs :
  Forall (fun c => page_number c = p) (segment_page thr p bs).
Proof.
  destruct (segment_page_spec thr p bs) as [H0 H1].
  destruct (count_nonempty bs) eqn:E.
  - rewrite H0 by reflexivity. constructor.
  - apply H1; lia.
Qed.

Lemma filter_other_page (cs : list chunk) (p : nat) :
  Forall (fun c => page_number c <> p) cs ->
  filter (fun c => page_number c =? p) cs = [].
Proof.
  intros H. induction H as [|c cs Hc H IH]; simpl; [reflexivity|].
  destruct (Nat.eqb_spec (page_number c) p); [contradiction|exact IH].
Qed.

Lemma segment_pages_ge thr pages : forall start,
  Forall (fun c => start <= page_number c) (segment_pages thr start pages).
Proof.
  induction pages as [|bs pages IH]; intros start; simpl; [constructor|].
  apply Forall_app; split.
  - eapply Forall_impl; [|apply segment_page_pages]. simpl. lia.
  - eapply Forall_impl; [|apply IH]. simpl. lia.
Qed.

Lemma filter_same_page (p : nat) (cs : list chunk) :
  Forall (fun c => page_number c = p) cs ->
  filter (fun c => page_number c =? p) cs = cs.
Proof.
  intros H. induction H as [|c cs Hc H IH]; simpl; [reflexivity|].
  rewrite Hc, Nat.eqb_refl, IH. reflexivity.
Qed.

Lemma segment_pages_page thr pages : forall start n bs,
  nth_error pages n = Some bs ->
  filter (fun c => page_number c =? start + n) (segment_pages thr start pages)
  = segment_page thr (start + n) bs.
Proof.
  induction pages as [|bs0 pages IH]; intros start n bs H; [destruct n; discriminate|].
  simpl. rewrite filter_app. destruct n as [|n].
  - simpl in H. injection H as <-. rewrite Nat.add_0_r.
    rewrite filter_same_page by apply segment_page_pages.
    rewrite filter_other_page; [apply app_nil_r|].
    eapply Forall_impl; [|apply segment_pages_ge]. simpl. lia.
  - simpl in H. rewrite filter_other_page.
    + simpl. replace (start + S n) with (S start + n) by lia. apply IH; exact H.
    + eapply Forall_impl; [|apply segment_page_pages]. simpl. lia.
Qed.

End SegmenterFacts.


(** ** Facts about the monad and the ingestion loop *)
Module IngestionFacts.
Import PyStr Py Segmenter Ingestion.
Local Open Scope string_scope.
Local Open Scope list_scope.

Lemma for_each_app {S A} (body : A -> M S unit) (l1 l2 : list A) (s : S) :
  (forall x s, snd (body x s) = inl tt) ->
  for_each body (l1 ++ l2) s = for_each body l2 (fst (for_each body l1 s)).
Proof.
  intros Hb. revert s. induction l1 as [|x l1 IH]; intros s; simpl; [reflexivity|].
  unfold bind. specialize (Hb x s).
  destruct (body x s) as [s' [u|e]]; simpl in Hb; [|discriminate].
  apply IH.
Qed.

Lemma for_each_ok {S A} (body : A -> M S unit) (l : list A) (s : S) :
  (forall x s, snd (body x s) = inl tt) -> snd (for_each body l s) = inl tt.
Proof.
  intros Hb. revert s. induction l as [|x l IH]; intros s; simpl; [reflexivity|].
  unfold bind. specialize (Hb x s).
  destruct (body x s) as [s' [u|e]]; simpl in Hb; [|discriminate].
  apply IH.
Qed.

Lemma for_each_cons_ok {S A} (body : A -> M S unit) (x : A) (l : list A) (s : S) :
  snd (body x s) = inl tt ->
  for_each body (x :: l) s = for_each body l (fst (body x s)).
Proof.
  intros Hb. simpl. unfold bind.
  destruct (body x s) as [s' [u|e]]; simpl in Hb; [reflexivity|discriminate].
Qed.

Section Facts.
Variable thr : Z.
Variable dir : string.
Variable path_exists : string -> bool.
Variable fitz_open : string -> nat + py_exn.
Variable page_blocks : string -> nat -> list block + py_exn.
Variable embeddings : string -> list Z + py_exn.
Variable upsert : list point -> list point -> list point + py_exn.

Local Abbreviation row := (process_row thr dir path_exists fitz_open page_blocks embeddings upsert).
Local Abbreviation body := (doc_body thr path_exists fitz_open page_blocks embeddings upsert).

Lemma process_row_ok (r : csv_row) (s : ing_state) : snd (row r s) = inl tt.
Proof.
  unfold process_row.
  destruct (dict_get "filename" r) as [fn|], (dict_get "source_id" r) as [sid|];
    try reflexivity.
  destruct (truthy (Some fn) && truthy (Some sid)); [|reflexivity].
  unfold try_except.
  destruct (body fn sid (path_join dir fn) s) as [s' [[]|e]]; reflexivity.
Qed.

Lemma embed_chunks_store fn sid cs : forall acc s,
  store (fst (embed_chunks embeddings fn sid cs acc s)) = store s.
Proof.
  induction cs as [|c cs IH]; intros acc s; simpl; [reflexivity|].
  unfold bind, lift, uuid4.
  destruct (embeddings (ctext c)); simpl; [|reflexivity].
  rewrite IH. reflexivity.
Qed.

Lemma pages_loop_store fn sid path ns : forall acc s,
  store (fst (pages_loop thr page_blocks embeddings fn sid path ns acc s)) = store s.
Proof.
  induction ns as [|n ns IH]; intros acc s; simpl; [reflexivity|].
  unfold bind at 1, lift.
  destruct (page_blocks path n); simpl; [|reflexivity].
  unfold bind.
  pose proof (embed_chunks_store fn sid (segment_page thr (S n) l) acc s) as H.
  destruct (embed_chunks embeddings fn sid (segment_page thr (S n) l) acc s) as [s1 [acc'|e]];
    simpl in *; [|exact H].
  rewrite IH. exact H.
Qed.

(** A document whose processing raised leaves the store as it was. *)
Lemma doc_body_raise_store fn sid path s s' e :
  body fn sid path s = (s', inr e) -> store s' = store s.
Proof.
  unfold doc_body.
  destruct (path_exists path); simpl; [|unfold logm, modify; congruence].
  unfold bind at 1, logm, modify.
  unfold bind at 1, lift.
  destruct (fitz_open path) as [np|e0]; [|intros H; injection H as <- _; reflexivity].
  unfold bind at 1.
  match goal with |- context [pages_loop ?t ?pb ?em ?a ?b ?c ?d ?acc ?s0] =>
    pose proof (pages_loop_store a b c d acc s0) as Hs;
    destruct (pages_loop t pb em a b c d acc s0) as [s1 [pts|e1]] end.
  - destruct pts as [|p pts]; unfold logm, modify; [congruence|].
    unfold bind, upsert_points.
    destruct (upsert (store s1) (p :: pts)); [congruence|].
    intros H; injection H as <- _. exact Hs.
  - intros H; injection H as <- _. exact Hs.
Qed.

End Facts.
End IngestionFacts.

(** ** Facts about the orchestrator *)
Module QueryFacts.
Import PyStr Py Query QuerySpec.
Local Open Scope string_scope.
Local Open Scope list_scope.

Lemma append_assoc (a b c : string) : (a +++ b) +++ c = a +++ (b +++ c).
Proof. induction a as [|x a IH]; simpl; [reflexivity|]. rewrite IH. reflexivity. Qed.

Lemma append_empty_r (a : string) : a +++ "" = a.
Proof. induction a as [|x a IH]; simpl; [reflexivity|]. rewrite IH. reflexivity. Qed.

Lemma allowed_existsb (c : string) :
  existsb (String.eqb c) ALLOWED_MIME_TYPES = true <-> In c ALLOWED_MIME_TYPES.
Proof.
  rewrite existsb_exists. split.
  - intros [x [Hx Heq]]. apply String.eqb_eq in Heq. subst. exact Hx.
  - intros H. exists c. split; [exact H|]. apply String.eqb_refl.
Qed.

(** The rendering loop makes no external call and builds the spec's
    grounding entries. *)
Lemma render_results_ok (rs : list scored_point) : forall i acc tr tr' out,
  render_results i rs acc tr = (tr', inl out) ->
  tr' = tr /\ out = acc +++ grounding_entries (S i) rs.
Proof.
  induction rs as [|r rs IH]; intros i acc tr tr' out H; cbn [render_results] in H.
  - unfold ret in H. injection H as <- <-. cbn [grounding_entries]. rewrite append_empty_r. auto.
  - destruct (py_get (payload_dict r) "text_chunk" (VStr "No text available.")) as [t| |] eqn:Ht;
      try discriminate.
    apply IH in H. destruct H as [-> ->]. split; [reflexivity|].
    cbn [grounding_entries]. unfold legal_chunk_header, result_text, citation_field.
    rewrite Ht, Nat.add_1_r. cbn [py_str].
    repeat rewrite append_assoc. reflexivity.
Qed.

Section Facts.
Variable aload_data : string -> string -> list document + py_exn.
Variable aget_query_embedding : string -> list Z + py_exn.
Variable qdrant_search : list Z -> nat -> list scored_point + py_exn.
Variable acomplete : string -> string + py_exn.

Local Abbreviation analyze := (analyze_document aload_data aget_query_embedding qdrant_search acomplete).
Local Abbreviation upload_text := (read_upload aload_data).

(** A rejected upload ends the request with its client error; nothing after
    it runs. *)
Lemma analyze_upload_error q file tr tr1 c d :
  upload_text file tr = (tr1, inr (HTTPException c d)) ->
  analyze q file tr = (tr1, inr (HTTPException c d)).
Proof.
  intros H. unfold analyze_document, try_except, analyze_body, bind at 1.
  rewrite H. reflexivity.
Qed.

(** Once the document text is known, the next call embeds the composed
    query. *)
Lemma analyze_embeds_next q file tr tr1 d :
  upload_text file tr = (tr1, inl d) ->
  exists rest, fst (analyze q file tr) = tr1 ++ CEmbed (combined_query_text d q) :: rest.
Proof.
  intros H. unfold analyze_document, try_except, analyze_body, bind at 1.
  rewrite H. unfold bind at 1, record_call.
  destruct (aget_query_embedding (combined_query_text d q)) as [qv|e].
  2:{ exists []. destruct e; reflexivity. }
  unfold bind at 1.
  destruct (qdrant_search qv TOP_K_RESULTS) as [rs|e].
  2:{ exists [CSearch qv TOP_K_RESULTS]. rewrite <- app_assoc. destruct e; reflexivity. }
  unfold bind at 1.
  destruct rs as [|r rs].
  - unfold ret, bind. destruct (acomplete _) as [a|e];
      [|destruct e]; eexists; simpl; rewrite <- !app_assoc; reflexivity.
  - destruct (render_results 0 (r :: rs) "" _) as [tr2 [out|e]] eqn:Hr.
    + apply render_results_ok in Hr. destruct Hr as [-> _].
      unfold bind. destruct (acomplete _) as [a|e];
        [|destruct e]; eexists; simpl; rewrite <- !app_assoc; reflexivity.
    + destruct e; eexists; simpl; (* the loop made no call *)
        (assert (Htr : tr2 = (tr1 ++ [CEmbed (combined_query_text d q)]) ++ [CSearch qv TOP_K_RESULTS])
           by (clear -Hr; revert Hr; generalize 0 ""; generalize (r :: rs);
               induction l as [|x l IH]; intros i acc Hr; simpl in Hr; [discriminate|];
               destruct (py_get _ "text_chunk" _); try (injection Hr; auto); eapply IH; exact Hr));
        rewrite Htr, <- !app_assoc; reflexivity.
Qed.

(** The rest of the request depends on the upload only through its text
    and the calls made so far. *)
Lemma analyze_same_upload q file file' tr tr' :
  upload_text file tr = upload_text file' tr' -> analyze q file tr = analyze q file' tr'.
Proof.
  intros H. unfold analyze_document, try_except, analyze_body, bind. rewrite H. reflexivity.
Qed.

Lemma read_upload_none tr : upload_text None tr = (tr, inl "").
Proof. reflexivity. Qed.

Lemma read_upload_rejected f tr :
  ~ media_type_allowed (content_type f) \/ (MAX_FILE_BYTES < Z.of_nat (String.length (contents f)))%Z ->
  exists code detail, upload_text (Some f) tr = (tr, inr (HTTPException code detail)) /\
                      (400 <= code < 500)%Z.
Proof.
  intros H. unfold read_upload, validate_file, bind at 1.
  destruct (content_type f) as [ct|] eqn:Hct.
  - destruct (existsb (String.eqb ct) ALLOWED_MIME_TYPES) eqn:Ha.
    + destruct H as [H|H].
      * exfalso. apply H. exists ct. split; [reflexivity|]. apply allowed_existsb; exact Ha.
      * unfold ret. apply Z.ltb_lt in H. rewrite H. do 2 eexists; split; [reflexivity|lia].
    + do 2 eexists; split; [reflexivity|lia].
  - do 2 eexists; split; [reflexivity|lia].
Qed.

(** An accepted upload is handed to the parser, whose result decides the
    document text. *)
Lemma read_upload_accepted f tr :
  media_type_allowed (content_type f) -> (Z.of_nat (String.length (contents f)) <= MAX_FILE_BYTES)%Z ->
  upload_text (Some f) tr =
  match aload_data (upload_suffix f) (contents f) with
  | inl [] => (tr ++ [CParse (upload_suffix f) (contents f)],
               inr (HTTPException 400 "Empty parse result for document."))
  | inl (d :: _) => (tr ++ [CParse (upload_suffix f) (contents f)], inl (doc_text d))
  | inr e => (tr ++ [CParse (upload_suffix f) (contents f)],
              inr (HTTPException 400 ("Failed to parse document: " +++ exn_str e)))
  end.
Proof.
  intros [c [Hc Hin]] Hlen. unfold read_upload, validate_file, bind at 1.
  rewrite Hc. apply allowed_existsb in Hin. rewrite Hin. unfold ret.
  assert (Hl : (MAX_FILE_BYTES <? Z.of_nat (String.length (contents f)))%Z = false)
    by (apply Z.ltb_ge; exact Hlen).
  rewrite Hl. unfold bind, try_except, record_call.
  destruct (aload_data (upload_suffix f) (contents f)) as [[|d ds]|e]; reflexivity.
Qed.

(** A request that succeeds made exactly the embedding, search and
    completion calls after reading the upload, in that order. *)
Lemma analyze_success q file tr tr' resp :
  analyze q file tr = (tr', inl resp) ->
  exists tr1 d qv rs,
    upload_text file tr = (tr1, inl d) /\
    aget_query_embedding (combined_query_text d q) = inl qv /\
    qdrant_search qv TOP_K_RESULTS = inl rs /\
    tr' = tr1 ++ [CEmbed (combined_query_text d q); CSearch qv TOP_K_RESULTS;
                  CComplete (final_prompt q d (grounding_block rs))] /\
    retrieved_sources_count resp = length rs.
Proof.
  unfold analyze_document, try_except, analyze_body, bind at 1.
  destruct (upload_text file tr) as [tr1 [d|e]] eqn:Hu.
  2:{ destruct e; discriminate. }
  unfold bind at 1, record_call.
  destruct (aget_query_embedding (combined_query_text d q)) as [qv|e] eqn:He.
  2:{ destruct e; discriminate. }
  unfold bind at 1.
  destruct (qdrant_search qv TOP_K_RESULTS) as [rs|e] eqn:Hs.
  2:{ destruct e; discriminate. }
  unfold bind at 1.
  destruct rs as [|r rs].
  - unfold ret, bind. destruct (acomplete _) as [a|e]; [|destruct e; discriminate].
    intros H; injection H as <- <-.
    exists tr1, d, qv, []. rewrite <- !app_assoc. repeat split; auto.
  - destruct (render_results 0 (r :: rs) "" _) as [tr2 [out|e]] eqn:Hr.
    2:{ destruct e; discriminate. }
    apply render_results_ok in Hr. destruct Hr as [-> Hout].
    subst out.
    unfold bind. destruct (acomplete _) as [a|e]; [|destruct e; discriminate].
    intros H; injection H as <- <-.
    exists tr1, d, qv, (r :: rs). rewrite <- !app_assoc. repeat split; auto.
Qed.

End Facts.
End QueryFacts.

(** * Claims about the Segmenter *)
Module SegmenterClaims.
Import PyStr PyStrFacts Segmenter SegmenterFacts.
Local Open Scope string_scope.
Local Open Scope list_scope.

Lemma after_nonempty_block thr p pre b1 mids :
  nonempty_block b1 = true ->
  Forall (fun b => nonempty_block b = false) mids ->
  let st1 := seg_loop thr p 0 seg_init (pre ++ b1 :: mids) in
  last_y1 st1 = y1 b1 /\ has_nonspace (cur_text st1) = true.
Proof.
  intros Hb1 Hm st1.
  assert (E : st1 = seg_step thr p (length pre) (seg_loop thr p 0 seg_init pre) b1).
  { unfold st1. rewrite seg_loop_app. simpl. apply seg_loop_all_empty; exact Hm. }
  split.
  - rewrite E. apply seg_step_last_y1; exact Hb1.
  - pose proof (seg_loop_inv thr p (pre ++ b1 :: mids) 0 0 seg_init (seg_inv_init p)) as H.
    fold st1 in H. unfold count_nonempty in H. rewrite filter_app in H. simpl in H.
    rewrite Hb1 in H. rewrite length_app in H. simpl in H.
    destruct H as [(Hk & _) | (_ & Ht & _)]; [lia | exact Ht].
Qed.

(** C3: when the vertical gap between two consecutively processed
    non-empty blocks equals the threshold (or is smaller), the second block
    continues the current paragraph; only a gap strictly greater than the
    threshold starts a new paragraph. *)
Theorem gap_at_threshold_continues_paragraph (thr : Z) (p : nat)
    (pre mids : list block) (b1 b2 : block) :
  nonempty_block b1 = true -> nonempty_block b2 = true ->
  Forall (fun b => nonempty_block b = false) mids ->
  let st1 := seg_loop thr p 0 seg_init (pre ++ b1 :: mids) in
  let st2 := seg_loop thr p 0 seg_init (pre ++ b1 :: mids ++ [b2]) in
  ((y0 b2 - y1 b1 <= thr)%Z ->
     st2 = mk_seg (cur_text st1 +++ " " +++ strip (btext b2)) (cur_num st1) (y1 b2)
                  (emitted st1)) /\
  ((thr < y0 b2 - y1 b1)%Z ->
     st2 = mk_seg (strip (btext b2)) (S (cur_num st1)) (y1 b2)
                  (emitted st1 ++ [mk_chunk p (cur_num st1) (normalize (cur_text st1))])).
Proof.
  intros Hb1 Hb2 Hm st1 st2.
  destruct (after_nonempty_block thr p pre b1 mids Hb1 Hm) as [Hy Ht]. fold st1 in Hy, Ht.
  assert (E : st2 = seg_step thr p (length (pre ++ b1 :: mids)) st1 b2).
  { unfold st2, st1. rewrite app_comm_cons, app_assoc, seg_loop_app. reflexivity. }
  rewrite length_app in E. simpl length in E.
  unfold nonempty_block in Hb2. apply negb_true_iff in Hb2.
  pose proof (is_empty_has_nonspace _ Ht) as Hte.
  rewrite E. unfold seg_step. rewrite Hb2, Hy, Hte. simpl negb.
  replace (Nat.eqb (length pre + S (length mids)) 0) with false
    by (symmetry; apply Nat.eqb_neq; lia).
  split; intros Hgap.
  - replace (thr <? y0 b2 - y1 b1)%Z with false by (symmetry; apply Z.ltb_ge; lia).
    reflexivity.
  - replace (thr <? y0 b2 - y1 b1)%Z with true by (symmetry; apply Z.ltb_lt; lia).
    simpl. rewrite (normalize_nonempty _ Ht). reflexivity.
Qed.

(** Two blocks exactly [PARAGRAPH_THRESHOLD] apart form one paragraph. *)
Lemma gap_at_threshold_continues_paragraph_witness :
  nonempty_block (mk_block 0 0 100 20 "Section 1.") = true /\
  nonempty_block (mk_block 0 32 100 50 "Late filing is penalised.") = true /\
  seg_loop PARAGRAPH_THRESHOLD 1 0 seg_init
    ([] ++ mk_block 0 0 100 20 "Section 1." :: [] ++ [mk_block 0 32 100 50 "Late filing is penalised."])
  = mk_seg ("Section 1." +++ " " +++ "Late filing is penalised.") 1 50 [].
Proof.
  split; [reflexivity|]. split; [reflexivity|].
  exact (proj1 (gap_at_threshold_continues_paragraph PARAGRAPH_THRESHOLD 1 [] []
                  (mk_block 0 0 100 20 "Section 1.")
                  (mk_block 0 32 100 50 "Late filing is penalised.")
                  eq_refl eq_refl (Forall_nil _)) ltac:(vm_compute; discriminate)).
Defined.

(** C7: a page with no non-empty block yields no chunk; otherwise it yields
    at least one and at most as many chunks as it has non-empty blocks. *)
Theorem chunk_count_bounds (thr : Z) (p : nat) (bs : list block) :
  (count_nonempty bs = 0 -> segment_page thr p bs = []) /\
  (0 < count_nonempty bs ->
     1 <= length (segment_page thr p bs) <= count_nonempty bs).
Proof.
  destruct (segment_page_spec thr p bs) as [H0 H1]. split; [exact H0|].
  intros Hpos. apply H1; exact Hpos.
Qed.

Lemma chunk_count_bounds_witness :
  segment_page PARAGRAPH_THRESHOLD 1 [mk_block 0 0 10 10 "  "] = [] /\
  1 <= length (segment_page PARAGRAPH_THRESHOLD 1
                 [mk_block 0 40 10 50 "b"; mk_block 0 0 10 10 "a"]) <= 2.
Proof.
  split.
  - apply (chunk_count_bounds PARAGRAPH_THRESHOLD 1 [mk_block 0 0 10 10 "  "]).
    reflexivity.
  - apply (chunk_count_bounds PARAGRAPH_THRESHOLD 1
             [mk_block 0 40 10 50 "b"; mk_block 0 0 10 10 "a"]).
    vm_compute. lia.
Defined.

(** C8: the chunks of page [n + 1] in the document's output are those the
    page yields on its own (numbering restarts on every page), and their
    paragraph numbers are exactly [1, 2, ..., k]. *)
Theorem paragraph_numbers_per_page (thr : Z) (pages : list (list block)) (n : nat)
    (bs : list block) :
  nth_error pages n = Some bs ->
  let cs := filter (fun c => Nat.eqb (page_number c) (S n)) (parse_pdf_chunks thr pages) in
  cs = segment_page thr (S n) bs /\
  map paragraph_number cs = seq 1 (length cs).
Proof.
  intros Hn cs.
  assert (Hcs : cs = segment_page thr (S n) bs).
  { unfold cs, parse_pdf_chunks. apply (segment_pages_page thr pages 1 n bs Hn). }
  split; [exact Hcs|]. rewrite Hcs.
  destruct (segment_page_spec thr (S n) bs) as [H0 H1].
  destruct (count_nonempty bs) eqn:E.
  - rewrite H0 by reflexivity. reflexivity.
  - apply H1; lia.
Qed.

Lemma paragraph_numbers_per_page_witness :
  map paragraph_number
    (filter (fun c => Nat.eqb (page_number c) 2)
       (parse_pdf_chunks PARAGRAPH_THRESHOLD
          [[mk_block 0 0 10 10 "p1"];
           [mk_block 0 60 10 70 "c"; mk_block 0 0 10 10 "a"; mk_block 0 30 10 40 "b"]]))
  = [1; 2; 3].
Proof.
  pose proof (paragraph_numbers_per_page PARAGRAPH_THRESHOLD
     [[mk_block 0 0 10 10 "p1"];
      [mk_block 0 60 10 70 "c"; mk_block 0 0 10 10 "a"; mk_block 0 30 10 40 "b"]] 1
     [mk_block 0 60 10 70 "c"; mk_block 0 0 10 10 "a"; mk_block 0 30 10 40 "b"] eq_refl) as H.
  cbv zeta in H. destruct H as [_ H]. rewrite H. vm_compute. reflexivity.
Defined.

End SegmenterClaims.

(** * Claims about the ingestion pipeline *)
Module IngestionClaims.
Import PyStr Py Segmenter Ingestion IngestionFacts PointMeasures.
Local Open Scope string_scope.
Local Open Scope list_scope.

Lemma ingest_main_completes thr dir connect get_collection create_collection read_csv
    path_exists fitz_open page_blocks embeddings upsert (rows : list csv_row) (st : ing_state) :
  connect = inl tt ->
  get_collection = inl tt \/ create_collection = inl tt ->
  read_csv = inl rows ->
  exists st', ingest_main thr dir connect get_collection create_collection read_csv
                path_exists fitz_open page_blocks embeddings upsert st = (st', inl tt) /\
              last (log st') (ERROR, LComplete) = (INFO, LComplete).
Proof.
  intros Hc Hg Hr. unfold ingest_main. rewrite Hc, Hr.
  unfold bind at 1, create_qdrant_collection.
  assert (Hcq : exists st1, (match get_collection with
                  | inl _ => logm INFO LCollectionExists
                  | inr _ => bind (lift create_collection) (fun _ => logm INFO LCollectionCreated)
                  end) st = (st1, inl tt)).
  { destruct get_collection as [[]|e]; [eexists; reflexivity|].
    destruct Hg as [Hg|Hg]; [discriminate|]. rewrite Hg. eexists; reflexivity. }
  destruct Hcq as [st1 ->].
  unfold bind at 1, logm, modify.
  unfold bind at 1.
  pose proof (for_each_ok (process_row thr dir path_exists fitz_open page_blocks embeddings upsert)
                rows (add_log INFO (LFound (length rows)) st1) (process_row_ok _ _ _ _ _ _ _)) as Hok.
  destruct (for_each _ rows _) as [st2 r] eqn:E. simpl in Hok. subst r.
  eexists; split; [reflexivity|]. simpl. apply last_last.
Qed.

(** C2: a document whose resolution, parsing, embedding or upsert raises
    is logged with its filename and the error, leaves the store as it was,
    and the loop goes on with the next manifest row; the loop never raises,
    and once started the run always reaches its completion message. *)
Theorem per_document_failure_isolated (thr : Z) (dir : string)
    (path_exists : string -> bool) (fitz_open : string -> nat + py_exn)
    (page_blocks : string -> nat -> list block + py_exn)
    (embeddings : string -> list Z + py_exn)
    (upsert : list point -> list point -> list point + py_exn)
    (pre post : list csv_row) (r : csv_row) (st0 st1 : ing_state)
    (fn sid : string) (e : py_exn) :
  let row := process_row thr dir path_exists fitz_open page_blocks embeddings upsert in
  let st := fst (for_each row pre st0) in
  dict_get "filename" r = Some fn -> dict_get "source_id" r = Some sid ->
  fn <> "" -> sid <> "" ->
  doc_body thr path_exists fitz_open page_blocks embeddings upsert
    fn sid (path_join dir fn) st = (st1, inr e) ->
  for_each row (pre ++ r :: post) st0 = for_each row post (add_log ERROR (LFailed fn e) st1) /\
  store st1 = store st /\
  snd (for_each row (pre ++ r :: post) st0) = inl tt /\
  (forall connect get_collection create_collection read_csv (rows : list csv_row) (s : ing_state),
     connect = inl tt -> get_collection = inl tt \/ create_collection = inl tt ->
     read_csv = inl rows ->
     exists s', ingest_main thr dir connect get_collection create_collection read_csv
                  path_exists fitz_open page_blocks embeddings upsert s = (s', inl tt) /\
                last (log s') (ERROR, LComplete) = (INFO, LComplete)).
Proof.
  intros row st Hf Hs Hfn Hsid Hbody.
  assert (Hok : forall x s, snd (row x s) = inl tt) by (intros; apply process_row_ok).
  split; [|split; [|split]].
  - rewrite (for_each_app row pre (r :: post) st0 Hok).
    fold st. rewrite (for_each_cons_ok row r post st (Hok r st)).
    f_equal. unfold row, process_row. rewrite Hf, Hs. unfold truthy.
    destruct fn as [|a fn]; [contradiction|]. destruct sid as [|b sid]; [contradiction|].
    cbn [truthy is_empty negb andb]. unfold try_except. rewrite Hbody. reflexivity.
  - eapply doc_body_raise_store; exact Hbody.
  - apply for_each_ok; exact Hok.
  - intros connect get_collection create_collection read_csv rows s Hc Hg Hr.
    apply (ingest_main_completes thr dir connect get_collection create_collection read_csv
             path_exists fitz_open page_blocks embeddings upsert rows s Hc Hg Hr).
Qed.

Lemma per_document_failure_isolated_witness :
  let bad := [("filename", Some "broken.pdf"); ("source_id", Some "S1")] in
  let good := [("filename", Some "ok.pdf"); ("source_id", Some "S2")] in
  let row := process_row 12 "docs" (fun _ => true) (fun _ => inr (Exception "cannot open"))
               (fun _ _ => inl []) (fun _ => inl []) (fun s _ => inl s) in
  for_each row ([] ++ bad :: [good]) (mk_ing [] [] 0) =
  for_each row [good]
    (add_log ERROR (LFailed "broken.pdf" (Exception "cannot open"))
       (mk_ing [(INFO, LProcessing "broken.pdf")] [] 0)).
Proof.
  intros bad good row.
  exact (proj1 (per_document_failure_isolated 12 "docs" (fun _ => true)
                  (fun _ => inr (Exception "cannot open")) (fun _ _ => inl []) (fun _ => inl [])
                  (fun s _ => inl s) [] [good] bad (mk_ing [] [] 0)
                  (mk_ing [(INFO, LProcessing "broken.pdf")] [] 0)
                  "broken.pdf" "S1" (Exception "cannot open")
                  eq_refl eq_refl ltac:(discriminate) ltac:(discriminate) eq_refl)).
Defined.

(** C9: a manifest row missing [filename] or [source_id], or naming a
    file that does not exist, is skipped with a warning, and the rows after
    it are processed as usual; the loop never raises. *)
Theorem skipped_rows_do_not_halt (thr : Z) (dir : string)
    (path_exists : string -> bool) (fitz_open : string -> nat + py_exn)
    (page_blocks : string -> nat -> list block + py_exn)
    (embeddings : string -> list Z + py_exn)
    (upsert : list point -> list point -> list point + py_exn)
    (pre post : list csv_row) (r : csv_row) (st0 : ing_state) :
  let row := process_row thr dir path_exists fitz_open page_blocks embeddings upsert in
  let st := fst (for_each row pre st0) in
  (truthy (dict_get "filename" r) = false \/ truthy (dict_get "source_id" r) = false ->
     for_each row (pre ++ r :: post) st0 =
     for_each row post (add_log WARNING (LSkipMissing r) st)) /\
  (forall fn, dict_get "filename" r = Some fn -> fn <> "" ->
     truthy (dict_get "source_id" r) = true ->
     path_exists (path_join dir fn) = false ->
     for_each row (pre ++ r :: post) st0 =
     for_each row post (add_log WARNING (LFileNotFound (path_join dir fn)) st)) /\
  snd (for_each row (pre ++ r :: post) st0) = inl tt.
Proof.
  intros row st.
  assert (Hok : forall x s, snd (row x s) = inl tt) by (intros; apply process_row_ok).
  assert (Hsplit : for_each row (pre ++ r :: post) st0 = for_each row post (fst (row r st))).
  { rewrite (for_each_app row pre (r :: post) st0 Hok). fold st.
    apply for_each_cons_ok, Hok. }
  split; [|split].
  - intros Hmiss. rewrite Hsplit. f_equal. unfold row, process_row.
    destruct (dict_get "filename" r) as [fn|], (dict_get "source_id" r) as [sid|];
      try reflexivity.
    destruct Hmiss as [H|H]; rewrite H; [reflexivity|]. rewrite andb_false_r. reflexivity.
  - intros fn Hf Hfn Hs Hp. rewrite Hsplit. f_equal. unfold row, process_row.
    rewrite Hf. destruct (dict_get "source_id" r) as [sid|]; [|discriminate].
    rewrite Hs. unfold truthy at 1. destruct fn as [|a fn']; [contradiction|].
    cbn [is_empty negb andb]. unfold try_except, doc_body. rewrite Hp. reflexivity.
  - apply for_each_ok; exact Hok.
Qed.

Lemma skipped_rows_do_not_halt_witness :
  let row := process_row 12 "docs" (fun _ => false) (fun _ => inl 0)
               (fun _ _ => inl []) (fun _ => inl []) (fun s _ => inl s) in
  let r := [("filename", Some "law.pdf"); ("source_id", Some "")] in
  for_each row ([] ++ r :: [[("filename", Some "x.pdf"); ("source_id", Some "S2")]])
    (mk_ing [] [] 0) =
  for_each row [[("filename", Some "x.pdf"); ("source_id", Some "S2")]]
    (add_log WARNING (LSkipMissing r) (mk_ing [] [] 0)).
Proof.
  intros row r.
  exact (proj1 (skipped_rows_do_not_halt 12 "docs" (fun _ => false) (fun _ => inl 0)
                  (fun _ _ => inl []) (fun _ => inl []) (fun s _ => inl s)
                  [] [[("filename", Some "x.pdf"); ("source_id", Some "S2")]] r (mk_ing [] [] 0))
                (or_intror eq_refl)).
Defined.

End IngestionClaims.

(** * Claims about the query orchestrator *)
Module QueryClaims.
Import PyStr Py Query QuerySpec QueryFacts.
Local Open Scope string_scope.
Local Open Scope list_scope.

Lemma combined_query_document (d q : string) :
  is_empty d = false -> combined_query_text d q = document_question_form d q.
Proof.
  intros Hd. unfold combined_query_text, document_question_form. rewrite Hd. simpl negb.
  cbv iota. rewrite !append_assoc. reflexivity.
Qed.

Lemma combined_query_no_document (q : string) :
  combined_query_text "" q = question_only_form q.
Proof. reflexivity. Qed.

(** C1 as stated fails: the parser returns one document whose text is
    empty, and the request goes on to embed, search and complete. *)
Lemma empty_text_parse_not_rejected_counterexample :
  let r := analyze_document (fun _ _ => inl [mk_document ""]) (fun _ => inl [0%Z])
             (fun _ _ => inl []) (fun _ => inl "answer")
             "What is the penalty for late filing?"
             (Some (mk_upload (Some "application/pdf") (Some "scan.pdf") "%PDF-1.7")) [] in
  snd r = inl (mk_response "answer" 0) /\
  In (CEmbed (question_only_form "What is the penalty for late filing?")) (fst r).
Proof. vm_compute. split; [reflexivity|]. right. left. reflexivity. Qed.

(** C1 (amended): for an accepted upload, when the parser returns no
    document at all, the request fails with status 400 and the detail
    "Empty parse result for document." right after the parse call, so no
    embedding, search or completion call is made; when it returns documents
    and the first one has an empty text, the request is not rejected: it
    goes on to embed the question-only form. *)
Theorem empty_parse_rejected aload_data aget_query_embedding qdrant_search acomplete
    (q : string) (f : upload) (tr : trace) :
  media_type_allowed (content_type f) -> (Z.of_nat (String.length (contents f)) <= MAX_FILE_BYTES)%Z ->
  (aload_data (upload_suffix f) (contents f) = inl [] ->
   analyze_document aload_data aget_query_embedding qdrant_search acomplete q (Some f) tr =
   (tr ++ [CParse (upload_suffix f) (contents f)],
    inr (HTTPException 400 "Empty parse result for document."))) /\
  (forall d ds, aload_data (upload_suffix f) (contents f) = inl (d :: ds) -> doc_text d = "" ->
   exists rest,
     fst (analyze_document aload_data aget_query_embedding qdrant_search acomplete q (Some f) tr) =
     tr ++ CParse (upload_suffix f) (contents f) :: CEmbed (question_only_form q) :: rest).
Proof.
  intros Ha Hl.
  pose proof (read_upload_accepted aload_data f tr Ha Hl) as Hu.
  split.
  - intros Hp. rewrite Hp in Hu. apply analyze_upload_error; exact Hu.
  - intros d ds Hp Hd. rewrite Hp, Hd in Hu.
    destruct (analyze_embeds_next aload_data aget_query_embedding qdrant_search acomplete
                q (Some f) tr _ _ Hu) as [rest H].
    exists rest. rewrite H, <- app_assoc. reflexivity.
Qed.

Lemma empty_parse_rejected_witness :
  media_type_allowed (Some "application/pdf") /\
  analyze_document (fun _ _ => inl []) (fun _ => inl [0%Z]) (fun _ _ => inl [])
    (fun _ => inl "answer") "Q"
    (Some (mk_upload (Some "application/pdf") (Some "scan.pdf") "%PDF-1.7")) [] =
  ([] ++ [CParse ".pdf" "%PDF-1.7"], inr (HTTPException 400 "Empty parse result for document.")).
Proof.
  assert (Ha : media_type_allowed (Some "application/pdf"))
    by (exists "application/pdf"; split; [reflexivity|left; reflexivity]).
  split; [exact Ha|].
  exact (proj1 (empty_parse_rejected (fun _ _ => inl []) (fun _ => inl [0%Z]) (fun _ _ => inl [])
              (fun _ => inl "answer") "Q"
              (mk_upload (Some "application/pdf") (Some "scan.pdf") "%PDF-1.7") []
              Ha ltac:(unfold MAX_FILE_BYTES, MAX_FILE_MB; simpl; lia)) eq_refl).
Defined.

(** C4: the text handed to the embedding call is the question-only form
    when there is no document text (no file, or an accepted upload whose
    first parsed document has an empty text), and the labeled document
    section followed by the labeled question section when there is. *)
Theorem composed_query_text_forms aload_data aget_query_embedding qdrant_search acomplete
    (q : string) (tr : trace) :
  (exists rest,
     fst (analyze_document aload_data aget_query_embedding qdrant_search acomplete q None tr) =
     tr ++ CEmbed (question_only_form q) :: rest) /\
  (forall f d ds,
     media_type_allowed (content_type f) -> (Z.of_nat (String.length (contents f)) <= MAX_FILE_BYTES)%Z ->
     aload_data (upload_suffix f) (contents f) = inl (d :: ds) -> doc_text d <> "" ->
     exists rest,
       fst (analyze_document aload_data aget_query_embedding qdrant_search acomplete q (Some f) tr) =
       tr ++ CParse (upload_suffix f) (contents f) ::
             CEmbed (document_question_form (doc_text d) q) :: rest) /\
  (forall f d ds,
     media_type_allowed (content_type f) -> (Z.of_nat (String.length (contents f)) <= MAX_FILE_BYTES)%Z ->
     aload_data (upload_suffix f) (contents f) = inl (d :: ds) -> doc_text d = "" ->
     exists rest,
       fst (analyze_document aload_data aget_query_embedding qdrant_search acomplete q (Some f) tr) =
       tr ++ CParse (upload_suffix f) (contents f) :: CEmbed (question_only_form q) :: rest).
Proof.
  split; [|split].
  - destruct (analyze_embeds_next aload_data aget_query_embedding qdrant_search acomplete
                q None tr tr "" (read_upload_none aload_data tr)) as [rest H].
    exists rest. exact H.
  - intros f d ds Ha Hl Hp Hd.
    pose proof (read_upload_accepted aload_data f tr Ha Hl) as Hu. rewrite Hp in Hu.
    destruct (analyze_embeds_next aload_data aget_query_embedding qdrant_search acomplete
                q (Some f) tr _ _ Hu) as [rest H].
    exists rest. rewrite H, <- app_assoc.
    rewrite combined_query_document; [reflexivity|].
    destruct (doc_text d); [contradiction|reflexivity].
  - intros f d ds Ha Hl Hp Hd.
    pose proof (read_upload_accepted aload_data f tr Ha Hl) as Hu. rewrite Hp, Hd in Hu.
    destruct (analyze_embeds_next aload_data aget_query_embedding qdrant_search acomplete
                q (Some f) tr _ _ Hu) as [rest H].
    exists rest. rewrite H, <- app_assoc. reflexivity.
Qed.

Lemma composed_query_text_forms_witness :
  exists rest,
    fst (analyze_document (fun _ _ => inl [mk_document "Notice of assessment"])
           (fun _ => inl [0%Z]) (fun _ _ => inl []) (fun _ => inl "answer") "Why?"
           (Some (mk_upload (Some "image/png") (Some "notice.png") "PNG")) []) =
    [] ++ CParse ".png" "PNG" ::
          CEmbed (document_question_form "Notice of assessment" "Why?") :: rest.
Proof.
  apply (proj1 (proj2 (composed_query_text_forms (fun _ _ => inl [mk_document "Notice of assessment"])
                  (fun _ => inl [0%Z]) (fun _ _ => inl []) (fun _ => inl "answer") "Why?" []))
                (mk_upload (Some "image/png") (Some "notice.png") "PNG")
                (mk_document "Notice of assessment") []).
  - exists "image/png". split; [reflexivity|]. right; right; right; left; reflexivity.
  - unfold MAX_FILE_BYTES, MAX_FILE_MB; simpl; lia.
  - reflexivity.
  - discriminate.
Defined.

(** C5: a request that returns a response built its prompt with the
    grounding block of the search results (one "Legal Chunk" header per
    result, in the order returned, each followed by the result's text, or
    the "no relevant legal chunks" notice when there is none), and reports
    as many sources as results. *)
Theorem grounding_block_and_count aload_data aget_query_embedding qdrant_search acomplete
    (q : string) (file : option upload) (tr tr' : trace) (resp : rag_response) :
  analyze_document aload_data aget_query_embedding qdrant_search acomplete q file tr =
    (tr', inl resp) ->
  exists tr1 d qv rs,
    read_upload aload_data file tr = (tr1, inl d) /\
    qdrant_search qv TOP_K_RESULTS = inl rs /\
    tr' = tr1 ++ [CEmbed (combined_query_text d q); CSearch qv TOP_K_RESULTS;
                  CComplete (final_prompt q d (grounding_block rs))] /\
    (rs = [] -> grounding_block rs = NO_CHUNKS_NOTICE) /\
    retrieved_sources_count resp = length rs.
Proof.
  intros H.
  destruct (analyze_success aload_data aget_query_embedding qdrant_search acomplete
              q file tr tr' resp H) as (tr1 & d & qv & rs & Hu & _ & Hs & Htr & Hc).
  exists tr1, d, qv, rs. repeat split; auto.
  intros ->. reflexivity.
Qed.

Lemma grounding_block_and_count_witness :
  let hit (f : string) (pg para : Z) (t : string) :=
    mk_scored 80 (Some [("filename", VStr f); ("page_number", VInt pg);
                        ("paragraph_number", VInt para); ("text_chunk", VStr t)]) in
  let rs := [hit "tax_act.pdf" 4%Z 2%Z "A penalty of 5% applies."; hit "rules.pdf" 1%Z 7%Z "Interest accrues."] in
  retrieved_sources_count
    (mk_response "answer" 2) = length rs /\
  analyze_document (fun _ _ => inl []) (fun _ => inl [1%Z]) (fun _ _ => inl rs)
    (fun _ => inl "answer") "What is the penalty for late filing?" None [] =
  ([CEmbed (question_only_form "What is the penalty for late filing?");
    CSearch [1%Z] TOP_K_RESULTS;
    CComplete (final_prompt "What is the penalty for late filing?" "" (grounding_block rs))],
   inl (mk_response "answer" 2)).
Proof.
  intros hit rs.
  assert (E : analyze_document (fun _ _ => inl []) (fun _ => inl [1%Z]) (fun _ _ => inl rs)
                (fun _ => inl "answer") "What is the penalty for late filing?" None [] =
              ([CEmbed (question_only_form "What is the penalty for late filing?");
                CSearch [1%Z] TOP_K_RESULTS;
                CComplete (final_prompt "What is the penalty for late filing?" "" (grounding_block rs))],
               inl (mk_response "answer" 2))) by (vm_compute; reflexivity).
  destruct (grounding_block_and_count (fun _ _ => inl []) (fun _ => inl [1%Z]) (fun _ _ => inl rs)
              (fun _ => inl "answer") "What is the penalty for late filing?" None [] _ _ E)
    as (tr1 & d & qv & rs' & _ & Hs & _ & _ & Hc).
  injection Hs as <-. split; [exact Hc | exact E].
Defined.

(** C6: an upload whose declared media type is not allow-listed, or whose
    size exceeds 5 MiB, is refused with a 4xx error and the request makes
    no parse, embedding, search or completion call. *)
Theorem rejected_upload_makes_no_call aload_data aget_query_embedding qdrant_search acomplete
    (q : string) (f : upload) (tr : trace) :
  ~ media_type_allowed (content_type f) \/ (MAX_FILE_BYTES < Z.of_nat (String.length (contents f)))%Z ->
  exists code detail,
    analyze_document aload_data aget_query_embedding qdrant_search acomplete q (Some f) tr =
    (tr, inr (HTTPException code detail)) /\ (400 <= code < 500)%Z.
Proof.
  intros H.
  destruct (read_upload_rejected aload_data f tr H) as (code & detail & Hu & Hc).
  exists code, detail. split; [|exact Hc].
  apply analyze_upload_error; exact Hu.
Qed.

Lemma rejected_upload_makes_no_call_witness :
  exists code detail,
    analyze_document (fun _ _ => inl [mk_document "x"]) (fun _ => inl [1%Z]) (fun _ _ => inl [])
      (fun _ => inl "answer") "Q" (Some (mk_upload (Some "text/plain") (Some "a.txt") "hello")) [] =
    ([], inr (HTTPException code detail)) /\ (400 <= code < 500)%Z.
Proof.
  apply rejected_upload_makes_no_call. left.
  intros (c & Hc & Hin). injection Hc as <-. vm_compute in Hin.
  repeat (destruct Hin as [Hin|Hin]; [discriminate|]). exact Hin.
Defined.

(** C10: an accepted upload whose first parsed document has an empty text
    is not rejected: after the parse call the request runs exactly as a
    request without a file, embedding the question-only form. *)
Theorem empty_first_document_as_no_file aload_data aget_query_embedding qdrant_search acomplete
    (q : string) (f : upload) (d : document) (ds : list document) (tr : trace) :
  media_type_allowed (content_type f) -> (Z.of_nat (String.length (contents f)) <= MAX_FILE_BYTES)%Z ->
  aload_data (upload_suffix f) (contents f) = inl (d :: ds) -> doc_text d = "" ->
  analyze_document aload_data aget_query_embedding qdrant_search acomplete q (Some f) tr =
  analyze_document aload_data aget_query_embedding qdrant_search acomplete q None
    (tr ++ [CParse (upload_suffix f) (contents f)]) /\
  exists rest,
    fst (analyze_document aload_data aget_query_embedding qdrant_search acomplete q (Some f) tr) =
    tr ++ CParse (upload_suffix f) (contents f) :: CEmbed (question_only_form q) :: rest.
Proof.
  intros Ha Hl Hp Hd.
  pose proof (read_upload_accepted aload_data f tr Ha Hl) as Hu. rewrite Hp, Hd in Hu.
  split.
  - apply analyze_same_upload. rewrite Hu, read_upload_none. reflexivity.
  - destruct (analyze_embeds_next aload_data aget_query_embedding qdrant_search acomplete
                q (Some f) tr _ _ Hu) as [rest H].
    exists rest. rewrite H, <- app_assoc. reflexivity.
Qed.

Lemma empty_first_document_as_no_file_witness :
  analyze_document (fun _ _ => inl [mk_document ""]) (fun _ => inl [1%Z]) (fun _ _ => inl [])
    (fun _ => inl "answer") "Q" (Some (mk_upload (Some "image/jpeg") (Some "scan.jpg") "JPG")) [] =
  analyze_document (fun _ _ => inl [mk_document ""]) (fun _ => inl [1%Z]) (fun _ _ => inl [])
    (fun _ => inl "answer") "Q" None ([] ++ [CParse ".jpg" "JPG"]).
Proof.
  apply (proj1 (empty_first_document_as_no_file (fun _ _ => inl [mk_document ""])
                  (fun _ => inl [1%Z]) (fun _ _ => inl []) (fun _ => inl "answer") "Q"
                  (mk_upload (Some "image/jpeg") (Some "scan.jpg") "JPG") (mk_document "") [] []
                  ltac:(exists "image/jpeg"; split; [reflexivity|right; right; right; right; left; reflexivity])
                  ltac:(unfold MAX_FILE_BYTES, MAX_FILE_MB; simpl; lia) eq_refl eq_refl)).
Defined.

End QueryClaims.

(** * Further properties of the Segmenter *)
Module SegmenterExtras.
Import PyStr PyStrFacts Segmenter SegmenterFacts TextMeasures.
Local Open Scope string_scope.
Local Open Scope list_scope.

Lemma app_assoc_str (a b c : string) : (a +++ b) +++ c = a +++ (b +++ c).
Proof. induction a as [|x a IH]; simpl; [reflexivity|]. rewrite IH. reflexivity. Qed.

Lemma app_nil_str (a : string) : a +++ "" = a.
Proof. induction a as [|x a IH]; simpl; [reflexivity|]. rewrite IH. reflexivity. Qed.

(** *** Normalization is idempotent *)

Lemma single_spaced_collapse b s : single_spaced b (collapse_aux b s) = true.
Proof.
  revert b. induction s as [|c s IH]; intros b; simpl; [reflexivity|].
  destruct (is_space c) eqn:Hc.
  - destruct b; [apply IH|]. simpl. apply IH.
  - simpl. rewrite Hc. apply IH.
Qed.

Lemma collapse_single_spaced b s : single_spaced b s = true -> collapse_aux b s = s.
Proof.
  revert b. induction s as [|c s IH]; intros b H; simpl in *; [reflexivity|].
  destruct (is_space c) eqn:Hc.
  - apply andb_true_iff in H as [H H3]. apply andb_true_iff in H as [H1 H2].
    apply Ascii.eqb_eq in H1. subst c. destruct b; [discriminate|].
    rewrite IH by exact H3. reflexivity.
  - rewrite IH by exact H. reflexivity.
Qed.

Lemma single_spaced_weaken s : single_spaced true s = true -> single_spaced false s = true.
Proof.
  destruct s as [|c s]; simpl; [auto|]. destruct (is_space c).
  - rewrite andb_false_r. simpl. discriminate.
  - auto.
Qed.

Lemma single_spaced_lstrip b s : single_spaced b s = true -> single_spaced false (lstrip s) = true.
Proof.
  revert b. induction s as [|c s IH]; intros b H; simpl in *; [reflexivity|].
  destruct (is_space c) eqn:Hc.
  - apply andb_true_iff in H as [_ H]. apply (IH true H).
  - simpl. rewrite Hc. exact H.
Qed.

Lemma single_spaced_rstrip b s : single_spaced b s = true -> single_spaced b (rstrip s) = true.
Proof.
  revert b. induction s as [|c s IH]; intros b H; simpl in *; [reflexivity|].
  destruct (is_empty (rstrip s) && is_space c); [reflexivity|]. simpl.
  destruct (is_space c).
  - apply andb_true_iff in H as [H H3]. rewrite H. simpl. apply IH; exact H3.
  - apply IH; exact H.
Qed.

Lemma rstrip_idem s : rstrip (rstrip s) = rstrip s.
Proof.
  induction s as [|c s IH]; simpl; [reflexivity|].
  destruct (is_empty (rstrip s) && is_space c) eqn:E; [reflexivity|].
  simpl. rewrite IH, E. reflexivity.
Qed.

Lemma lstrip_starts s : starts_nonspace (lstrip s).
Proof.
  induction s as [|c s IH]; simpl; [exact I|].
  destruct (is_space c) eqn:Hc; [exact IH|]. exact Hc.
Qed.

Lemma rstrip_starts s : starts_nonspace s -> starts_nonspace (rstrip s).
Proof.
  destruct s as [|c s]; simpl; [auto|]. intros Hc. rewrite Hc, andb_false_r. exact Hc.
Qed.

Lemma lstrip_starts_id s : starts_nonspace s -> lstrip s = s.
Proof. destruct s as [|c s]; simpl; [auto|]. intros Hc. rewrite Hc. reflexivity. Qed.

(** [re.sub(r'\s+', ' ', t).strip()] leaves its own results unchanged. *)
Theorem normalize_idempotent (s : string) : normalize (normalize s) = normalize s.
Proof.
  unfold normalize, collapse, strip.
  set (t := rstrip (lstrip (collapse_aux false s))).
  assert (Hs : single_spaced false t = true).
  { unfold t. apply single_spaced_rstrip. eapply single_spaced_lstrip.
    apply single_spaced_collapse. }
  rewrite (collapse_single_spaced false t Hs).
  assert (Hst : starts_nonspace t) by (apply rstrip_starts, lstrip_starts).
  rewrite (lstrip_starts_id t Hst). unfold t. apply rstrip_idem.
Qed.

(** *** Every chunk text is non-empty and normalized *)

Lemma seg_step_chunks_ok thr p i st b :
  Forall chunk_ok (emitted st) -> Forall chunk_ok (emitted (seg_step thr p i st b)).
Proof.
  intros H. unfold seg_step.
  destruct (is_empty (strip (btext b))); [exact H|].
  destruct (_ && _); simpl; [|exact H].
  destruct (is_empty (normalize (cur_text st))) eqn:E; simpl; [exact H|].
  apply Forall_app; split; [exact H|]. constructor; [|constructor].
  split; [exact E|]. apply normalize_idempotent.
Qed.

Lemma seg_loop_chunks_ok thr p bs : forall i st,
  Forall chunk_ok (emitted st) -> Forall chunk_ok (emitted (seg_loop thr p i st bs)).
Proof.
  induction bs as [|b bs IH]; intros i st H; simpl; [exact H|].
  apply IH, seg_step_chunks_ok, H.
Qed.

(** Every chunk the Segmenter yields has a non-empty text on which
    normalization is the identity. *)
Theorem segment_page_texts_normalized (thr : Z) (p : nat) (bs : list block) :
  Forall (fun c => ctext c <> "" /\ normalize (ctext c) = ctext c) (segment_page thr p bs).
Proof.
  assert (H : Forall chunk_ok (segment_page thr p bs)).
  { unfold segment_page, seg_flush.
    pose proof (seg_loop_chunks_ok thr p (sort_blocks bs) 0 seg_init (Forall_nil _)) as H.
    destruct (negb (is_empty (cur_text _))); [|exact H].
    destruct (is_empty (normalize (cur_text _))) eqn:E; simpl; [exact H|].
    apply Forall_app; split; [exact H|]. constructor; [|constructor].
    split; [exact E|]. apply normalize_idempotent. }
  eapply Forall_impl; [|exact H]. intros c [H1 H2]. split; [|exact H2].
  intros He. rewrite He in H1. discriminate.
Qed.

(** *** The block sort *)

Lemma key_lt_asym a b : key_lt a b = true -> key_lt b a = false.
Proof.
  unfold key_lt. intros H.
  apply orb_true_iff in H as [H|H].
  - apply Z.ltb_lt in H. apply orb_false_iff. split.
    + apply Z.ltb_ge; lia.
    + apply andb_false_iff. left. apply Z.eqb_neq; lia.
  - apply andb_true_iff in H as [H1 H2]. apply Z.eqb_eq in H1. apply Z.ltb_lt in H2.
    apply orb_false_iff. split.
    + apply Z.ltb_ge; lia.
    + apply andb_false_iff. right. apply Z.ltb_ge; lia.
Qed.

Lemma insert_block_hd c b l :
  HdRel (fun x y => key_le x y = true) c l -> key_le c b = true ->
  HdRel (fun x y => key_le x y = true) c (insert_block b l).
Proof.
  intros H Hcb. destruct l as [|d l]; simpl.
  - constructor; exact Hcb.
  - destruct (key_lt b d); constructor; [exact Hcb|]. inversion H; assumption.
Qed.

Lemma insert_block_sorted b l :
  Sorted (fun x y => key_le x y = true) l ->
  Sorted (fun x y => key_le x y = true) (insert_block b l).
Proof.
  induction l as [|c l IH]; intros H; simpl.
  - repeat constructor.
  - inversion H as [|? ? Hl Hhd]; subst.
    destruct (key_lt b c) eqn:E.
    + constructor; [exact H|]. constructor. unfold key_le.
      rewrite (key_lt_asym b c E). reflexivity.
    + constructor; [apply IH; exact Hl|]. apply insert_block_hd; [exact Hhd|].
      unfold key_le. rewrite E. reflexivity.
Qed.

Lemma insert_block_perm b l : Permutation (insert_block b l) (b :: l).
Proof.
  induction l as [|c l IH]; simpl; [reflexivity|].
  destruct (key_lt b c); [reflexivity|].
  rewrite IH. apply perm_swap.
Qed.

(** [blocks.sort(key=lambda b: (b[1], b[0]))] orders the blocks by
    [(y0, x0)] and keeps every block exactly once. *)
Theorem sort_blocks_sorted_perm (bs : list block) :
  Sorted (fun a b => key_le a b = true) (sort_blocks bs) /\ Permutation (sort_blocks bs) bs.
Proof.
  unfold sort_blocks.
  assert (G : forall acc, Sorted (fun a b => key_le a b = true) acc ->
     Sorted (fun a b => key_le a b = true) (fold_left (fun acc b => insert_block b acc) bs acc) /\
     Permutation (fold_left (fun acc b => insert_block b acc) bs acc) (bs ++ acc)).
  { induction bs as [|b bs IH]; intros acc Hs; simpl; [split; [exact Hs|reflexivity]|].
    destruct (IH (insert_block b acc) (insert_block_sorted b acc Hs)) as [H1 H2].
    split; [exact H1|]. rewrite H2, insert_block_perm. apply Permutation_sym, Permutation_middle. }
  destruct (G [] (Sorted_nil _)) as [H1 H2]. rewrite app_nil_r in H2. auto.
Qed.

(** *** No text is lost or invented *)

Lemma keep_nonspace_lstrip s : keep_nonspace (lstrip s) = keep_nonspace s.
Proof.
  induction s as [|c s IH]; simpl; [reflexivity|].
  destruct (is_space c) eqn:Hc; [exact IH|]. simpl. rewrite Hc. reflexivity.
Qed.

Lemma keep_nonspace_rstrip s : keep_nonspace (rstrip s) = keep_nonspace s.
Proof.
  induction s as [|c s IH]; simpl; [reflexivity|].
  destruct (is_empty (rstrip s)) eqn:He, (is_space c) eqn:Hc; simpl; rewrite ?Hc, ?IH;
    try reflexivity.
  destruct (rstrip s); [|discriminate]. rewrite <- IH. reflexivity.
Qed.

Lemma keep_nonspace_collapse b s : keep_nonspace (collapse_aux b s) = keep_nonspace s.
Proof.
  revert b. induction s as [|c s IH]; intros b; simpl; [reflexivity|].
  destruct (is_space c) eqn:Hc.
  - destruct b; simpl; apply IH.
  - simpl. rewrite Hc, IH. reflexivity.
Qed.

Lemma keep_nonspace_append a b : keep_nonspace (a +++ b) = keep_nonspace a +++ keep_nonspace b.
Proof.
  induction a as [|c a IH]; simpl; [reflexivity|].
  destruct (is_space c); simpl; rewrite IH; reflexivity.
Qed.

Lemma keep_nonspace_strip s : keep_nonspace (strip s) = keep_nonspace s.
Proof. unfold strip. rewrite keep_nonspace_rstrip, keep_nonspace_lstrip. reflexivity. Qed.

Lemma keep_nonspace_normalize s : keep_nonspace (normalize s) = keep_nonspace s.
Proof. unfold normalize, collapse. rewrite keep_nonspace_strip, keep_nonspace_collapse. reflexivity. Qed.

Lemma keep_nonspace_blank s : has_nonspace s = false -> keep_nonspace s = "".
Proof.
  induction s as [|c s IH]; simpl; [reflexivity|].
  intros H. apply orb_false_iff in H as [H1 H2]. apply negb_false_iff in H1.
  rewrite H1. apply IH; exact H2.
Qed.

Lemma concat_str_app l1 l2 : concat_str (l1 ++ l2) = concat_str l1 +++ concat_str l2.
Proof.
  induction l1 as [|x l1 IH]; simpl; [reflexivity|]. rewrite IH, app_assoc_str. reflexivity.
Qed.

Lemma chunk_chars_snoc l c :
  chunk_chars (l ++ [c]) = chunk_chars l +++ keep_nonspace (ctext c).
Proof.
  unfold chunk_chars. rewrite map_app, concat_str_app.
  unfold concat_str at 2. cbn [map fold_right]. rewrite app_nil_str. reflexivity.
Qed.

Lemma block_chars_cons b bs : block_chars (b :: bs) = keep_nonspace (btext b) +++ block_chars bs.
Proof. reflexivity. Qed.

Lemma keep_nonspace_normalize_blank s :
  is_empty (normalize s) = true -> keep_nonspace s = "".
Proof.
  intros En. unfold normalize, collapse in En.
  rewrite is_empty_strip, has_nonspace_collapse_aux in En.
  apply negb_true_iff in En. apply keep_nonspace_blank; exact En.
Qed.

Lemma keep_nonspace_is_empty s : is_empty s = true -> keep_nonspace s = "".
Proof. destruct s; [reflexivity|discriminate]. Qed.

Lemma seg_step_chars thr p i st b :
  chunk_chars (emitted (seg_step thr p i st b)) +++ keep_nonspace (cur_text (seg_step thr p i st b))
  = (chunk_chars (emitted st) +++ keep_nonspace (cur_text st)) +++ keep_nonspace (btext b).
Proof.
  unfold seg_step. cbv zeta.
  destruct (is_empty (strip (btext b))) eqn:Hb.
  { rewrite is_empty_strip in Hb. apply negb_true_iff in Hb.
    rewrite (keep_nonspace_blank _ Hb), app_nil_str. reflexivity. }
  destruct (_ && _) eqn:E; cbn [emitted cur_text].
  - rewrite keep_nonspace_strip.
    destruct (is_empty (normalize (cur_text st))) eqn:En; cbn [negb].
    + rewrite (keep_nonspace_normalize_blank _ En), app_nil_str. reflexivity.
    + rewrite chunk_chars_snoc. cbn [ctext]. rewrite keep_nonspace_normalize. reflexivity.
  - destruct (is_empty (cur_text st)) eqn:Ec; cbn [negb].
    + rewrite (keep_nonspace_is_empty _ Ec), app_nil_str, keep_nonspace_strip. reflexivity.
    + rewrite !keep_nonspace_append, keep_nonspace_strip.
      replace (keep_nonspace " ") with "" by reflexivity. cbn [String.append].
      rewrite app_assoc_str. reflexivity.
Qed.

Lemma seg_loop_chars thr p bs : forall i st,
  chunk_chars (emitted (seg_loop thr p i st bs)) +++ keep_nonspace (cur_text (seg_loop thr p i st bs))
  = (chunk_chars (emitted st) +++ keep_nonspace (cur_text st)) +++ block_chars bs.
Proof.
  induction bs as [|b bs IH]; intros i st; cbn [seg_loop].
  - change (block_chars []) with "". rewrite app_nil_str. reflexivity.
  - rewrite IH, seg_step_chars, block_chars_cons, !app_assoc_str. reflexivity.
Qed.

(** The non-whitespace characters of a page's chunks, in order, are exactly
    those of its blocks in reading order: no text is lost or duplicated. *)
Theorem segment_page_preserves_text (thr : Z) (p : nat) (bs : list block) :
  chunk_chars (segment_page thr p bs) = block_chars (sort_blocks bs).
Proof.
  unfold segment_page.
  assert (H : chunk_chars (emitted (seg_loop thr p 0 seg_init (sort_blocks bs))) +++
              keep_nonspace (cur_text (seg_loop thr p 0 seg_init (sort_blocks bs)))
              = block_chars (sort_blocks bs))
    by exact (seg_loop_chars thr p (sort_blocks bs) 0 seg_init).
  rewrite <- H. set (st := seg_loop thr p 0 seg_init (sort_blocks bs)).
  unfold seg_flush.
  destruct (is_empty (cur_text st)) eqn:Ec; cbn [negb].
  - rewrite (keep_nonspace_is_empty _ Ec), app_nil_str. reflexivity.
  - destruct (is_empty (normalize (cur_text st))) eqn:En; cbn [negb].
    + rewrite (keep_nonspace_normalize_blank _ En), app_nil_str. reflexivity.
    + rewrite chunk_chars_snoc. cbn [ctext]. rewrite keep_nonspace_normalize. reflexivity.
Qed.

(** *** Page numbers of the whole document *)

(** Every chunk of a document carries a page number between 1 and the
    number of pages. *)
Theorem chunk_page_numbers_in_range (thr : Z) (pages : list (list block)) :
  Forall (fun c => 1 <= page_number c <= length pages) (parse_pdf_chunks thr pages).
Proof.
  unfold parse_pdf_chunks.
  assert (G : forall start, Forall (fun c => start <= page_number c < start + length pages)
                                   (segment_pages thr start pages)).
  { induction pages as [|bs pages IH]; intros start; simpl; [constructor|].
    apply Forall_app; split.
    - eapply Forall_impl; [|apply segment_page_pages]. simpl. lia.
    - eapply Forall_impl; [|apply IH]. simpl. lia. }
  eapply Forall_impl; [|apply G]. simpl. lia.
Qed.

End SegmenterExtras.

(** ** Further properties of the ingestion pipeline *)
Module IngestionExtras.
Import PyStr Py Segmenter Ingestion IngestionFacts PointMeasures.
Local Open Scope string_scope.
Local Open Scope list_scope.

Section Extras.
Variable thr : Z.
Variable path_exists : string -> bool.
Variable fitz_open : string -> nat + py_exn.
Variable page_blocks : string -> nat -> list block + py_exn.
Variable embeddings : string -> list Z + py_exn.
Variable upsert : list point -> list point -> list point + py_exn.
(** The vectors the embedding model returns. *)
Variable emb : string -> list Z.

Local Abbreviation body := (doc_body thr path_exists fitz_open page_blocks embeddings upsert).

Lemma points_for_length fn sid cs pts : points_for emb fn sid cs pts -> length pts = length cs.
Proof.
  intros [H _]. rewrite <- (length_map pt_payload), H, length_map. reflexivity.
Qed.

Lemma points_for_app fn sid cs1 cs2 pts1 pts2 :
  points_for emb fn sid cs1 pts1 -> points_for emb fn sid cs2 pts2 ->
  points_for emb fn sid (cs1 ++ cs2) (pts1 ++ pts2).
Proof.
  intros [A1 B1] [A2 B2]. unfold points_for.
  rewrite !map_app, A1, B1, A2, B2. auto.
Qed.

Lemma embed_chunks_ok fn sid cs : forall acc s,
  (forall c, In c cs -> embeddings (ctext c) = inl (emb (ctext c))) ->
  exists pts, points_for emb fn sid cs pts /\
    embed_chunks embeddings fn sid cs acc s =
      (mk_ing (log s) (store s) (next_uuid s + length cs), inl (acc ++ pts)).
Proof.
  induction cs as [|c cs IH]; intros acc s He; simpl.
  - exists []. split; [repeat split|].
    rewrite Nat.add_0_r, app_nil_r. destruct s; reflexivity.
  - unfold bind at 1, lift. rewrite (He c (or_introl eq_refl)).
    unfold bind, uuid4.
    set (pt := mk_point (next_uuid s) (emb (ctext c))
                 (mk_payload fn sid (page_number c) (paragraph_number c) (ctext c))).
    destruct (IH (acc ++ [pt]) (mk_ing (log s) (store s) (S (next_uuid s))))
      as [pts [[A B] E]]; [intros c' Hc'; apply He; right; exact Hc'|].
    exists (pt :: pts). split.
    + unfold points_for. cbn [map]. rewrite A, B. auto.
    + rewrite E. cbn [log store next_uuid]. rewrite <- app_assoc.
      replace (S (next_uuid s) + length cs) with (next_uuid s + S (length cs)) by lia.
      reflexivity.
Qed.

Lemma pages_loop_ok fn sid path bss : forall k acc s,
  (forall j, j < length bss -> page_blocks path (k + j) = inl (nth j bss [])) ->
  (forall c, In c (segment_pages thr (S k) bss) -> embeddings (ctext c) = inl (emb (ctext c))) ->
  exists pts, points_for emb fn sid (segment_pages thr (S k) bss) pts /\
    pages_loop thr page_blocks embeddings fn sid path (seq k (length bss)) acc s =
      (mk_ing (log s) (store s) (next_uuid s + length (segment_pages thr (S k) bss)),
       inl (acc ++ pts)).
Proof.
  induction bss as [|bs bss IH]; intros k acc s Hp He; cbn [length seq pages_loop segment_pages].
  - exists []. split; [repeat split|].
    rewrite Nat.add_0_r, app_nil_r. destruct s; reflexivity.
  - unfold bind at 1, lift.
    rewrite <- (Nat.add_0_r k), (Hp 0 ltac:(simpl; lia)), Nat.add_0_r. cbn [nth].
    unfold bind.
    destruct (embed_chunks_ok fn sid (segment_page thr (S k) bs) acc s)
      as [pts1 [P1 E1]]; [intros c Hc; apply He; apply in_or_app; left; exact Hc|].
    rewrite E1.
    destruct (IH (S k) (acc ++ pts1)
                (mk_ing (log s) (store s) (next_uuid s + length (segment_page thr (S k) bs))))
      as [pts2 [P2 E2]].
    { intros j Hj. replace (S k + j) with (k + S j) by lia. apply (Hp (S j)). simpl; lia. }
    { intros c Hc. apply He. apply in_or_app; right; exact Hc. }
    exists (pts1 ++ pts2). split.
    + apply points_for_app; assumption.
    + rewrite E2. cbn [log store next_uuid]. rewrite <- app_assoc, length_app, Nat.add_assoc.
      reflexivity.
Qed.

(** A document whose pages all load and whose chunks all embed gets one
    point per chunk, in order, with payload [filename], [source_id], page,
    paragraph and chunk text, and the chunk's vector; the points go to a
    single [upsert], and on success the upload is logged with the
    chunk count. An [upsert] error propagates, leaving the store as it was. *)
Theorem doc_body_uploads_every_chunk (fn sid path : string) (bss : list (list block))
    (s : ing_state)
    (Hex : path_exists path = true)
    (Hopen : fitz_open path = inl (length bss))
    (Hpages : forall i, i < length bss -> page_blocks path i = inl (nth i bss []))
    (Hemb : forall c, In c (parse_pdf_chunks thr bss) -> embeddings (ctext c) = inl (emb (ctext c)))
    (Hne : parse_pdf_chunks thr bss <> []) :
  exists pts, points_for emb fn sid (parse_pdf_chunks thr bss) pts /\
    body fn sid path s =
      match upsert (store s) pts with
      | inl st' => (mk_ing (log s ++ [(INFO, LProcessing fn); (INFO, LUploaded (length pts) fn)])
                           st' (next_uuid s + length pts), inl tt)
      | inr e => (mk_ing (log s ++ [(INFO, LProcessing fn)]) (store s)
                         (next_uuid s + length pts), inr e)
      end.
Proof.
  unfold doc_body. rewrite Hex. cbn [negb].
  unfold bind at 1, logm, modify, add_log.
  unfold bind at 1, lift. rewrite Hopen.
  unfold bind at 1.
  destruct (pages_loop_ok fn sid path bss 0 []
              (mk_ing (log s ++ [(INFO, LProcessing fn)]) (store s) (next_uuid s)))
    as [pts [P E]]; [exact Hpages|exact Hemb|].
  cbn [next_uuid] in P, E. rewrite E. exists pts. split; [exact P|].
  pose proof (points_for_length _ _ _ _ P) as L.
  unfold parse_pdf_chunks in Hne. cbn [app].
  destruct pts as [|pt pts']; [simpl in L; destruct (segment_pages thr 1 bss); [contradiction|discriminate]|].
  unfold bind, upsert_points. cbn [store log next_uuid].
  unfold parse_pdf_chunks in L. rewrite L.
  destruct (upsert (store s) (pt :: pts')); unfold logm, modify, add_log; cbn [log store next_uuid];
    rewrite <- ?app_assoc; reflexivity.
Qed.

(** A document with no text chunk makes no [upsert]: it logs the
    processing and the warning [No text chunks found], and the store is
    unchanged. *)
Theorem doc_body_no_chunks (fn sid path : string) (bss : list (list block)) (s : ing_state)
    (Hex : path_exists path = true)
    (Hopen : fitz_open path = inl (length bss))
    (Hpages : forall i, i < length bss -> page_blocks path i = inl (nth i bss []))
    (Hnone : parse_pdf_chunks thr bss = []) :
  body fn sid path s =
    (mk_ing (log s ++ [(INFO, LProcessing fn); (WARNING, LNoChunks fn)]) (store s) (next_uuid s),
     inl tt).
Proof.
  unfold doc_body. rewrite Hex. cbn [negb].
  unfold bind at 1, logm, modify, add_log.
  unfold bind at 1, lift. rewrite Hopen.
  unfold bind at 1.
  destruct (pages_loop_ok fn sid path bss 0 []
              (mk_ing (log s ++ [(INFO, LProcessing fn)]) (store s) (next_uuid s)))
    as [pts [P E]]; [exact Hpages| |].
  { unfold parse_pdf_chunks in Hnone. rewrite Hnone. intros c []. }
  cbn [next_uuid] in P, E. rewrite E.
  pose proof (points_for_length _ _ _ _ P) as L.
  unfold parse_pdf_chunks in Hnone. rewrite Hnone in L. cbn [length] in L.
  destruct pts; [|discriminate]. rewrite Hnone. cbn [length app].
  unfold logm, modify, add_log. cbn [log store next_uuid].
  rewrite Nat.add_0_r, <- app_assoc. reflexivity.
Qed.

End Extras.

(** If the collection does not exist and creating it fails, the error
    leaves [main] (the call sits in an [except] handler with no [try]
    around it) before the manifest is read, whatever it holds: the state
    (log, store, id counter) is the one the run started from, so no row is
    processed or logged. *)
Theorem collection_creation_failure_aborts (thr : Z) (dir : string)
    (connect get_collection create_collection : unit + py_exn)
    (read_csv : list csv_row + py_exn) (path_exists : string -> bool)
    (fitz_open : string -> nat + py_exn) (page_blocks : string -> nat -> list block + py_exn)
    (embeddings : string -> list Z + py_exn)
    (upsert : list point -> list point -> list point + py_exn)
    (s : ing_state) (e0 e : py_exn) :
  connect = inl tt -> get_collection = inr e0 -> create_collection = inr e ->
  ingest_main thr dir connect get_collection create_collection read_csv
    path_exists fitz_open page_blocks embeddings upsert s = (s, inr e).
Proof.
  intros Hc Hg Hcc. unfold ingest_main. rewrite Hc.
  unfold bind at 1, create_qdrant_collection. rewrite Hg.
  unfold bind, lift. rewrite Hcc. reflexivity.
Qed.

Lemma collection_creation_failure_aborts_witness :
  ingest_main 12 "docs" (inl tt) (inr (Exception "collection not found"))
    (inr (Exception "disk full")) (inl [[("filename", Some "a.pdf"); ("source_id", Some "S1")]])
    (fun _ => true) (fun _ => inl 0) (fun _ _ => inl []) (fun _ => inl []) (fun st _ => inl st)
    (mk_ing [] [] 0) =
  (mk_ing [] [] 0, inr (Exception "disk full")).
Proof.
  exact (collection_creation_failure_aborts 12 "docs" (inl tt) (inr (Exception "collection not found"))
           (inr (Exception "disk full")) (inl [[("filename", Some "a.pdf"); ("source_id", Some "S1")]])
           (fun _ => true) (fun _ => inl 0) (fun _ _ => inl []) (fun _ => inl []) (fun st _ => inl st)
           (mk_ing [] [] 0) (Exception "collection not found") (Exception "disk full")
           eq_refl eq_refl eq_refl).
Defined.

Lemma doc_body_uploads_every_chunk_witness :
  let bss := [[mk_block 0 0 100 20 "Section 1."; mk_block 0 40 100 60 "Late filing is penalised."]] in
  let emb := fun t : string => [Z.of_nat (String.length t)] in
  exists pts, points_for emb "act.pdf" "S1" (parse_pdf_chunks 12 bss) pts /\
    doc_body 12 (fun _ => true) (fun _ => inl 1) (fun _ i => inl (nth i bss []))
      (fun t => inl (emb t)) (fun st pts => inl (st ++ pts)) "act.pdf" "S1" "docs/act.pdf"
      (mk_ing [] [] 7) =
    match (fun st pts => inl (st ++ pts) : list point + py_exn) [] pts with
    | inl st' => (mk_ing ([] ++ [(INFO, LProcessing "act.pdf"); (INFO, LUploaded (length pts) "act.pdf")])
                         st' (7 + length pts), inl tt)
    | inr e => (mk_ing ([] ++ [(INFO, LProcessing "act.pdf")]) [] (7 + length pts), inr e)
    end.
Proof.
  intros bss emb.
  apply (doc_body_uploads_every_chunk 12 (fun _ => true) (fun _ => inl 1) (fun _ i => inl (nth i bss []))
           (fun t => inl (emb t)) (fun st pts => inl (st ++ pts)) emb
           "act.pdf" "S1" "docs/act.pdf" bss (mk_ing [] [] 7)).
  - reflexivity.
  - reflexivity.
  - intros i _. reflexivity.
  - intros c _. reflexivity.
  - vm_compute. discriminate.
Defined.

Lemma doc_body_no_chunks_witness :
  let bss := [[mk_block 0 0 100 20 "   "]; []] in
  doc_body 12 (fun _ => true) (fun _ => inl 2) (fun _ i => inl (nth i bss []))
    (fun _ => inl []) (fun st pts => inl (st ++ pts)) "blank.pdf" "S2" "docs/blank.pdf"
    (mk_ing [] [] 3) =
  (mk_ing ([] ++ [(INFO, LProcessing "blank.pdf"); (WARNING, LNoChunks "blank.pdf")]) [] 3, inl tt).
Proof.
  intros bss.
  apply (doc_body_no_chunks 12 (fun _ => true) (fun _ => inl 2) (fun _ i => inl (nth i bss []))
           (fun _ => inl []) (fun st pts => inl (st ++ pts)) (fun _ => [])
           "blank.pdf" "S2" "docs/blank.pdf" bss (mk_ing [] [] 3)).
  - reflexivity.
  - reflexivity.
  - intros i _. reflexivity.
  - vm_compute. reflexivity.
Defined.

End IngestionExtras.

(** ** Further properties of the orchestrator *)
Module QueryExtras.
Import PyStr Py Query QuerySpec QueryFacts QueryMeasures.
Local Open Scope string_scope.
Local Open Scope list_scope.

(** The rendering loop raises only ordinary exceptions, and makes no call. *)
Lemma render_results_raise rs : forall i acc tr tr' e,
  render_results i rs acc tr = (tr', inr e) -> tr' = tr /\ exists m, e = Exception m.
Proof.
  induction rs as [|r rs IH]; intros i acc tr tr' e H; cbn [render_results] in H;
    [discriminate|].
  destruct (py_get (payload_dict r) "text_chunk" (VStr "No text available.")); try (eapply IH; exact H);
    injection H as <- <-; eauto.
Qed.

(** A result whose [text_chunk] is not a string makes the loop raise. *)
Lemma render_results_non_str rs : forall i acc tr,
  (exists r, In r rs /\ forall t, py_get (payload_dict r) "text_chunk" (VStr "No text available.") <> VStr t) ->
  exists e, render_results i rs acc tr = (tr, inr e).
Proof.
  induction rs as [|r rs IH]; intros i acc tr [r0 [Hin Hr0]]; [destruct Hin|].
  cbn [render_results].
  destruct Hin as [Heq|Hin].
  - subst r0.
    destruct (py_get (payload_dict r) "text_chunk" (VStr "No text available.")) as [t| |] eqn:E;
      [exfalso; exact (Hr0 t eq_refl)| |]; eexists; reflexivity.
  - destruct (py_get (payload_dict r) "text_chunk" (VStr "No text available.")); try (eexists; reflexivity).
    apply IH. exists r0. auto.
Qed.

Section Extras.
Variable aload_data : string -> string -> list document + py_exn.
Variable aget_query_embedding : string -> list Z + py_exn.
Variable qdrant_search : list Z -> nat -> list scored_point + py_exn.
Variable acomplete : string -> string + py_exn.

Local Abbreviation analyze := (analyze_document aload_data aget_query_embedding qdrant_search acomplete).
Local Abbreviation body := (analyze_body aload_data aget_query_embedding qdrant_search acomplete).
Local Abbreviation upload_text := (read_upload aload_data).

Lemma read_upload_raise file tr tr' e :
  upload_text file tr = (tr', inr e) -> exists c d, e = HTTPException c d /\ client_code c.
Proof.
  unfold client_code.
  destruct file as [f|]; [|discriminate].
  unfold read_upload, validate_file, bind at 1.
  destruct (content_type f) as [ct|].
  2:{ intros H; injection H as _ <-; do 2 eexists; split; [reflexivity|lia]. }
  destruct (existsb (String.eqb ct) ALLOWED_MIME_TYPES).
  2:{ intros H; injection H as _ <-; do 2 eexists; split; [reflexivity|lia]. }
  unfold ret. destruct (MAX_FILE_BYTES <? _)%Z.
  { intros H; injection H as _ <-; do 2 eexists; split; [reflexivity|lia]. }
  unfold bind, try_except, record_call.
  destruct (aload_data _ _) as [[|d ds]|e0]; intros H; [| discriminate |]; injection H as _ <-;
    do 2 eexists; (split; [reflexivity|unfold client_code; lia]).
Qed.

(** The ordinary exceptions of the external services. *)
Hypothesis embed_plain : forall x e, aget_query_embedding x = inr e -> exists m, e = Exception m.
Hypothesis search_plain : forall v k e, qdrant_search v k = inr e -> exists m, e = Exception m.
Hypothesis complete_plain : forall p e, acomplete p = inr e -> exists m, e = Exception m.

Lemma analyze_body_raise q file tr tr' e :
  body q file tr = (tr', inr e) ->
  (exists c d, e = HTTPException c d /\ client_code c) \/ (exists m, e = Exception m).
Proof.
  unfold analyze_body, bind at 1.
  destruct (upload_text file tr) as [tr1 [d|e1]] eqn:Hu.
  2:{ intros H; injection H as _ <-. left. eapply read_upload_raise; exact Hu. }
  unfold bind at 1, record_call.
  destruct (aget_query_embedding _) as [qv|e1] eqn:He.
  2:{ intros H; injection H as _ <-. right. eapply embed_plain; exact He. }
  unfold bind at 1.
  destruct (qdrant_search qv TOP_K_RESULTS) as [rs|e1] eqn:Hs.
  2:{ intros H; injection H as _ <-. right. eapply search_plain; exact Hs. }
  unfold bind at 1.
  destruct rs as [|r rs].
  - unfold ret, bind. destruct (acomplete _) as [a|e1] eqn:Hc; [discriminate|].
    intros H; injection H as _ <-. right. eapply complete_plain; exact Hc.
  - destruct (render_results 0 (r :: rs) "" _) as [tr2 [out|e1]] eqn:Hr.
    2:{ intros H; injection H as _ <-. right. apply render_results_raise in Hr. apply Hr. }
    unfold bind. destruct (acomplete _) as [a|e1] eqn:Hc; [discriminate|].
    intros H; injection H as _ <-. right. eapply complete_plain; exact Hc.
Qed.

(** When the external services raise only ordinary exceptions, a failed
    request ends with an [HTTPException] whose status is 400, 413, 415
    (the upload checks) or 500 (everything else); no other exception
    leaves the endpoint. *)
Theorem analyze_error_statuses q file tr tr' e :
  analyze q file tr = (tr', inr e) ->
  exists c d, e = HTTPException c d /\ (client_code c \/ c = 500%Z).
Proof.
  unfold analyze_document, try_except.
  destruct (body q file tr) as [tr1 [r|e1]] eqn:Hb; [discriminate|].
  destruct (analyze_body_raise q file tr tr1 e1 Hb) as [[c [d [-> Hc]]]|[m ->]];
    intros H; injection H as _ <-; eauto.
Qed.

(** An upload the parser fails on ends the request with status 400 and
    the parser's error in the detail; no embedding, search or completion
    call follows the parse. *)
Theorem parse_failure_is_400 q f tr e :
  media_type_allowed (content_type f) ->
  (Z.of_nat (String.length (contents f)) <= MAX_FILE_BYTES)%Z ->
  aload_data (upload_suffix f) (contents f) = inr e ->
  analyze q (Some f) tr =
    (tr ++ [CParse (upload_suffix f) (contents f)],
     inr (HTTPException 400 ("Failed to parse document: " +++ exn_str e))).
Proof.
  intros Ha Hl He. apply analyze_upload_error.
  rewrite (read_upload_accepted aload_data f tr Ha Hl), He. reflexivity.
Qed.

(** A failing embedding call ends the request with status 500 carrying
    the error message; no search and no completion follow. *)
Theorem embedding_failure_is_500 q file tr tr1 d m :
  upload_text file tr = (tr1, inl d) ->
  aget_query_embedding (combined_query_text d q) = inr (Exception m) ->
  analyze q file tr =
    (tr1 ++ [CEmbed (combined_query_text d q)], inr (HTTPException 500 ("Internal error: " +++ m))).
Proof.
  intros Hu He. unfold analyze_document, try_except, analyze_body, bind at 1.
  rewrite Hu. unfold bind at 1, record_call. rewrite He. reflexivity.
Qed.

(** A failing vector search ends the request with status 500 carrying the
    error message; no completion follows. *)
Theorem search_failure_is_500 q file tr tr1 d qv m :
  upload_text file tr = (tr1, inl d) ->
  aget_query_embedding (combined_query_text d q) = inl qv ->
  qdrant_search qv TOP_K_RESULTS = inr (Exception m) ->
  analyze q file tr =
    (tr1 ++ [CEmbed (combined_query_text d q); CSearch qv TOP_K_RESULTS],
     inr (HTTPException 500 ("Internal error: " +++ m))).
Proof.
  intros Hu He Hs. unfold analyze_document, try_except, analyze_body, bind at 1.
  rewrite Hu. unfold bind at 1, record_call. rewrite He.
  unfold bind at 1. rewrite Hs. rewrite <- app_assoc. reflexivity.
Qed.

(** A search hit whose [text_chunk] is not a string (an int or [None])
    makes the prompt assembly fail: the request ends with status 500 and
    the completion model is never called. *)
Theorem non_string_chunk_is_500 q file tr tr1 d qv rs :
  upload_text file tr = (tr1, inl d) ->
  aget_query_embedding (combined_query_text d q) = inl qv ->
  qdrant_search qv TOP_K_RESULTS = inl rs ->
  (exists r, In r rs /\ forall t, py_get (payload_dict r) "text_chunk" (VStr "No text available.") <> VStr t) ->
  exists m, analyze q file tr =
    (tr1 ++ [CEmbed (combined_query_text d q); CSearch qv TOP_K_RESULTS],
     inr (HTTPException 500 ("Internal error: " +++ m))).
Proof.
  intros Hu He Hs Hr. unfold analyze_document, try_except, analyze_body, bind at 1.
  rewrite Hu. unfold bind at 1, record_call. rewrite He.
  unfold bind at 1. rewrite Hs. unfold bind at 1.
  destruct rs as [|r rs]; [destruct Hr as [? [[] _]]|].
  destruct (render_results_non_str (r :: rs) 0 "" ((tr1 ++ [CEmbed (combined_query_text d q)]) ++ [CSearch qv TOP_K_RESULTS]) Hr)
    as [e Hre].
  rewrite Hre.
  destruct (render_results_raise _ _ _ _ _ _ Hre) as [_ [m ->]].
  exists m. rewrite <- app_assoc. reflexivity.
Qed.

End Extras.

Lemma analyze_error_statuses_witness :
  exists c d, HTTPException 500 ("Internal error: " +++ "embedding service unavailable") = HTTPException c d /\
              (client_code c \/ c = 500%Z).
Proof.
  refine (analyze_error_statuses (fun _ _ => inl []) (fun _ => inr (Exception "embedding service unavailable"))
           (fun _ _ => inl []) (fun _ => inl "") _ _ _ "Is this lease valid?" None []
           [CEmbed (combined_query_text "" "Is this lease valid?")] _ _).
  - intros x e H. injection H as <-. eauto.
  - intros v k e H. discriminate.
  - intros p e H. discriminate.
  - reflexivity.
Defined.

Lemma parse_failure_is_400_witness :
  let f := mk_upload (Some "application/pdf") (Some "lease.pdf") "%PDF-1.4" in
  analyze_document (fun _ _ => inr (Exception "corrupt file")) (fun _ => inl [1%Z])
    (fun _ _ => inl []) (fun _ => inl "") "Is this lease valid?" (Some f) [] =
  ([] ++ [CParse (upload_suffix f) (contents f)],
   inr (HTTPException 400 ("Failed to parse document: " +++ exn_str (Exception "corrupt file")))).
Proof.
  intros f.
  apply (parse_failure_is_400 (fun _ _ => inr (Exception "corrupt file")) (fun _ => inl [1%Z])
           (fun _ _ => inl []) (fun _ => inl "") "Is this lease valid?" f [] (Exception "corrupt file")).
  - exists "application/pdf". split; [reflexivity|]. simpl. auto.
  - unfold MAX_FILE_BYTES, MAX_FILE_MB. simpl. lia.
  - reflexivity.
Defined.

Lemma embedding_failure_is_500_witness :
  analyze_document (fun _ _ => inl []) (fun _ => inr (Exception "connection refused"))
    (fun _ _ => inl []) (fun _ => inl "") "Is this lease valid?" None [] =
  ([] ++ [CEmbed (combined_query_text "" "Is this lease valid?")],
   inr (HTTPException 500 ("Internal error: " +++ "connection refused"))).
Proof.
  apply (embedding_failure_is_500 (fun _ _ => inl []) (fun _ => inr (Exception "connection refused"))
           (fun _ _ => inl []) (fun _ => inl "") "Is this lease valid?" None [] [] ""
           "connection refused").
  - reflexivity.
  - reflexivity.
Defined.

Lemma search_failure_is_500_witness :
  analyze_document (fun _ _ => inl []) (fun _ => inl [1%Z; 2%Z])
    (fun _ _ => inr (Exception "timeout")) (fun _ => inl "") "Is this lease valid?" None [] =
  ([] ++ [CEmbed (combined_query_text "" "Is this lease valid?"); CSearch [1%Z; 2%Z] TOP_K_RESULTS],
   inr (HTTPException 500 ("Internal error: " +++ "timeout"))).
Proof.
  apply (search_failure_is_500 (fun _ _ => inl []) (fun _ => inl [1%Z; 2%Z])
           (fun _ _ => inr (Exception "timeout")) (fun _ => inl "") "Is this lease valid?" None [] [] ""
           [1%Z; 2%Z] "timeout").
  - reflexivity.
  - reflexivity.
  - reflexivity.
Defined.

Lemma non_string_chunk_is_500_witness :
  let hits := [mk_scored 1 (Some [("filename", VStr "act.pdf"); ("text_chunk", VNone)])] in
  exists m, analyze_document (fun _ _ => inl []) (fun _ => inl [1%Z])
    (fun _ _ => inl hits) (fun _ => inl "") "Is this lease valid?" None [] =
  ([] ++ [CEmbed (combined_query_text "" "Is this lease valid?"); CSearch [1%Z] TOP_K_RESULTS],
   inr (HTTPException 500 ("Internal error: " +++ m))).
Proof.
  intros hits.
  apply (non_string_chunk_is_500 (fun _ _ => inl []) (fun _ => inl [1%Z])
           (fun _ _ => inl hits) (fun _ => inl "") "Is this lease valid?" None [] [] "" [1%Z] hits).
  - reflexivity.
  - reflexivity.
  - reflexivity.
  - exists (mk_scored 1 (Some [("filename", VStr "act.pdf"); ("text_chunk", VNone)])).
    split; [left; reflexivity|]. intros t Ht. vm_compute in Ht. discriminate.
Defined.

End QueryExtras.

(** ** The suffix of the temporary file *)
Module SuffixExtras.
Import PyStr Query.
Local Open Scope string_scope.
Local Open Scope list_scope.

Lemma rfind_aux_some c s : forall i best k,
  rfind_aux c i s best = Some k ->
  (best = Some k /\ forall j, String.get j s <> Some c) \/
  (i <= k /\ String.get (k - i) s = Some c /\ forall j, k - i < j -> String.get j s <> Some c).
Proof.
  induction s as [|c' s IH]; intros i best k H; cbn [rfind_aux] in H.
  - left. split; [exact H|]. intros j. destruct j; discriminate.
  - destruct (IH _ _ _ H) as [[Hb Hn]|[Hle [Hg Hn]]].
    + destruct (Ascii.eqb c c') eqn:E.
      * injection Hb as <-. apply Ascii.eqb_eq in E. subst c'.
        right. rewrite Nat.sub_diag. split; [lia|]. split; [reflexivity|].
        intros [|j] Hj; [lia|]. apply Hn.
      * left. split; [exact Hb|]. intros [|j]; [|apply Hn].
        cbn. intros Heq. injection Heq as ->. rewrite Ascii.eqb_refl in E. discriminate.
    + right. split; [lia|].
      replace (k - i) with (S (k - S i)) by lia. split; [exact Hg|].
      intros [|j] Hj; [lia|]. apply Hn. lia.
Qed.

Lemma rfind_some c s k :
  rfind c s = Some k ->
  String.get k s = Some c /\ forall j, k < j -> String.get j s <> Some c.
Proof.
  unfold rfind. intros H.
  destruct (rfind_aux_some c s 0 None k H) as [[Hb _]|[_ [Hg Hn]]]; [discriminate|].
  rewrite Nat.sub_0_r in Hg, Hn. auto.
Qed.

Lemma rfind_aux_none c s : forall i best,
  rfind_aux c i s best = None -> best = None /\ forall j, String.get j s <> Some c.
Proof.
  induction s as [|c' s IH]; intros i best H; cbn [rfind_aux] in H.
  - split; [exact H|]. intros j. destruct j; discriminate.
  - destruct (IH _ _ H) as [Hb Hn].
    destruct (Ascii.eqb c c') eqn:E; [discriminate|].
    split; [exact Hb|]. intros [|j]; [|apply Hn].
    cbn. intros Heq. injection Heq as ->. rewrite Ascii.eqb_refl in E. discriminate.
Qed.

Lemma substring_whole s : substring 0 (String.length s) s = s.
Proof. induction s as [|c s IH]; [reflexivity|]. cbn. rewrite IH. reflexivity. Qed.

Lemma substring_split s : forall n, n <= String.length s ->
  s = substring 0 n s +++ substring n (String.length s - n) s.
Proof.
  induction s as [|c s IH]; intros n Hn.
  - destruct n; reflexivity.
  - destruct n as [|n].
    + rewrite Nat.sub_0_r, substring_whole. reflexivity.
    + cbn in Hn. cbn [substring String.length String.append Nat.sub].
      rewrite <- IH; [reflexivity|lia].
Qed.

Lemma get_lt_length j s a : String.get j s = Some a -> j < String.length s.
Proof.
  revert j. induction s as [|c s IH]; intros j H; [destruct j; discriminate|].
  destruct j; cbn; [lia|]. apply IH in H. lia.
Qed.

(** [os.path.splitext] gives either no extension, or a final part of the
    name that starts with ['.'] and contains no ['/']. *)
Theorem splitext_ext_suffix (p : string) :
  splitext_ext p = "" \/
  exists base, p = base +++ splitext_ext p /\
               String.get 0 (splitext_ext p) = Some "."%char /\
               forall j, String.get j (splitext_ext p) <> Some "/"%char.
Proof.
  unfold splitext_ext.
  destruct (rfind "." p) as [d|] eqn:Hd; [|left; reflexivity].
  set (start := match rfind "/" p with Some k => S k | None => 0 end).
  destruct (Nat.leb start d && _) eqn:Hc; [|left; reflexivity].
  right. apply andb_true_iff in Hc as [Hsd _]. apply Nat.leb_le in Hsd.
  destruct (rfind_some _ _ _ Hd) as [Hdot _].
  pose proof (get_lt_length _ _ _ Hdot) as Hlt.
  exists (substring 0 d p). split; [apply substring_split; lia|]. split.
  - rewrite substring_correct1 by lia. exact Hdot.
  - intros j Hj.
    destruct (Nat.lt_ge_cases j (String.length p - d)) as [Hj'|Hj'].
    2:{ rewrite substring_correct2 in Hj by exact Hj'. discriminate. }
    rewrite substring_correct1 in Hj by exact Hj'.
    unfold start in Hsd. destruct (rfind "/" p) as [k|] eqn:Hk.
    + destruct (rfind_some _ _ _ Hk) as [_ Hn]. apply (Hn (j + d)); [lia|exact Hj].
    + unfold rfind in Hk. destruct (rfind_aux_none _ _ _ _ Hk) as [_ Hn]. exact (Hn _ Hj).
Qed.

End SuffixExtras.
